(** * pro_calculator: the voice stream consumer and the expression guard

    A shallow embedding of [src/script.js]: the text helpers the script
    applies to expressions, [safeEvaluate], the two host variables the
    voice code writes, [voiceUI], [injectVoiceExpression],
    [handleVoiceResult], [handleVoicePayload] and the [voiceControl]
    object with its timers, fetches and event stream.

    Conventions.
    - A JavaScript string is a [string]: a sequence of code units.  Every
      character class of the script only names ASCII characters, so a code
      unit outside ASCII is outside every class.
    - A JavaScript number is a binary64 [float].
    - The globals of the script live in one record, [World].  A function
      of the script that assigns globals is a function [World -> World].
    - What the script asks of the browser (fetch, EventSource, timers,
      console, the display) is appended to [trace], oldest first.
    - An [async] function is cut at its [await]: the part before it runs
      when the function is called and leaves a [Continuation] in
      [pending]; the part after it runs when the fetch settles.
    - The properties of a received payload have the types of the wire
      format: tags, messages and expressions are strings, null or absent;
      the confidence is a number, null or absent.
    - The elements the script looks up on the page exist.  What it does to
      their classes and styles is not kept; the text of the status line
      and the redraws of the expression are. *)

From Stdlib Require Import String Ascii ZArith List Bool Lia Permutation.
From Stdlib Require Import Uint63 Floats.
Import ListNotations.
Local Open Scope string_scope.
Local Open Scope list_scope.

(** ** Text *)

Module Text.

(** [lo-hi] inside a character class. *)
Definition in_range (lo hi c : ascii) : bool :=
  (nat_of_ascii lo <=? nat_of_ascii c)%nat && (nat_of_ascii c <=? nat_of_ascii hi)%nat.

(** A character listed inside a character class. *)
Fixpoint one_of (listed : string) (c : ascii) : bool :=
  match listed with
  | EmptyString => false
  | String d rest => Ascii.eqb c d || one_of rest c
  end.

(** [\d] *)
Definition digit (c : ascii) : bool := in_range "0" "9" c.

(** [s.replace(/[class]/g, '')]: every code unit the class matches is
    deleted, the others stay in order. *)
Fixpoint delete_all (class : ascii -> bool) (s : string) : string :=
  match s with
  | EmptyString => EmptyString
  | String c rest =>
      if class c then delete_all class rest
      else String c (delete_all class rest)
  end.

(** [s.startsWith(p)] *)
Fixpoint starts_with (p s : string) : bool :=
  match p, s with
  | EmptyString, _ => true
  | String _ _, EmptyString => false
  | String a p', String b s' => Ascii.eqb a b && starts_with p' s'
  end.

(** [s.includes(p)] *)
Fixpoint includes (s p : string) : bool :=
  starts_with p s ||
  match s with
  | EmptyString => false
  | String _ rest => includes rest p
  end.

(** [s.slice(0, -1)] *)
Fixpoint slice_0_minus1 (s : string) : string :=
  match s with
  | EmptyString => EmptyString
  | String _ EmptyString => EmptyString
  | String c rest => String c (slice_0_minus1 rest)
  end.

(** The longest prefix of [s] made of characters of [class], and what
    follows it: a greedy [class*]. *)
Fixpoint span (class : ascii -> bool) (s : string) : string * string :=
  match s with
  | EmptyString => (EmptyString, EmptyString)
  | String c rest =>
      if class c then
        let (taken, left) := span class rest in (String c taken, left)
      else (EmptyString, s)
  end.

(** [!s] is false: a string is truthy unless it is empty. *)
Definition truthy (s : string) : bool :=
  match s with EmptyString => false | String _ _ => true end.

End Text.

(** ** The expression evaluator *)

Module Evaluator.
Import Text.

(** What a function call ends in: a value, or a thrown [Error] with its
    message. *)
Inductive Completion (A : Type) : Type :=
| Returns (value : A)
| Throws (message : string).
Arguments Returns {A} value.
Arguments Throws {A} message.

(** [try { body } catch (e) { throw new Error(message) }] *)
Definition try_catch_rethrow {A} (body : Completion A) (message : string)
  : Completion A :=
  match body with
  | Returns v => Returns v
  | Throws _ => Throws message
  end.

(** [[^0-9+\-*/.()%]]: the class of the first [replace] of
    [safeEvaluate]. *)
Definition outside_clean_class (c : ascii) : bool :=
  negb (in_range "0" "9" c || one_of "+-*/.()%" c).

(** [/(\d+(?:\.\d+)?)%/] tried at the start of [s]: the text of group 1
    when it matches.  [\d+] and the optional group are greedy and the
    next character decides: after fewer digits than the whole run the
    next character is a digit, which is neither ['.'] nor ['%'], so
    backtracking never finds a match that the greedy attempt misses. *)
Definition match_number_percent (s : string) : option string :=
  let (whole, after_whole) := span digit s in
  if truthy whole then
    match after_whole with
    | String "%" _ => Some whole
    | String "." after_point =>
        let (fraction, after_fraction) := span digit after_point in
        if truthy fraction then
          match after_fraction with
          | String "%" _ => Some (whole ++ "." ++ fraction)%string
          | _ => None
          end
        else None
    | _ => None
    end
  else None.

(** [expr.replace(/(\d+(?:\.\d+)?)%/g, '($1/100)')]: the scan goes left
    to right; a match is replaced and the scan resumes after it
    ([skip] counts the characters of the match still to pass). *)
Fixpoint rewrite_percent_from (skip : nat) (s : string) : string :=
  match s with
  | EmptyString => EmptyString
  | String c rest =>
      match skip with
      | S k => rewrite_percent_from k rest
      | O =>
          match match_number_percent s with
          | Some number =>
              ("(" ++ number ++ "/100)" ++ rewrite_percent_from (String.length number) rest)%string
          | None => String c (rewrite_percent_from 0 rest)
          end
      end
  end.

Definition rewrite_percent (s : string) : string := rewrite_percent_from 0 s.

(** The text on which [safeEvaluate] runs its guard and its evaluation:
    the expression cleaned, then its percentages rewritten. *)
Definition guarded_text (expression : string) : string :=
  rewrite_percent (delete_all outside_clean_class expression).

Section Engine.

(** [new Function('return ' + expr)()]: the number the engine returns,
    or [None] when it throws (a syntax error, a call of a number).
    The values that are not numbers and that the surviving characters
    can denote are [undefined] (for the empty text), regular expressions
    and texts built from them; [isFinite] is false for each, as it is
    for [nan], so [Some nan] stands for them. *)
Variable run_return : string -> option float.

(** [parseFloat(result.toFixed(12))] *)
Variable fixed12 : float -> float.

Definition safeEvaluate (expression : string) : Completion float :=
  try_catch_rethrow
    (let expr := delete_all outside_clean_class expression in
     let expr := rewrite_percent expr in
     if includes expr "/0" then Throws "Division by zero"
     else
       match run_return expr with
       | None => Throws "(the engine's message)"
       | Some result =>
           if negb (is_finite result) then Throws "Invalid result"
           else Returns (fixed12 result)
       end)
    "Invalid expression".

End Engine.

End Evaluator.

(** ** A reference engine for decimal arithmetic

    [safeEvaluate] is stated over any engine.  To run it on concrete
    expressions this module evaluates the part of JavaScript that decimal
    literals below 2^53, [+ - * /], unary signs and parentheses make up,
    in binary64 as the engine does.  It is a partial model: on any other
    text it answers [None], also where the engine would return a number
    (the remainder operator, [**], legacy octal literals such as [05],
    literals from 2^53 on).  It is used on closed examples inside the
    part it covers, and no theorem over all expressions depends on it. *)

Module Arithmetic.
Import Text.

Inductive token : Type :=
| TNumber (x : float)
| TPlus | TMinus | TStar | TSlash | TOpen | TClose.

Fixpoint digits_value_from (acc : Z) (s : string) : Z :=
  match s with
  | EmptyString => acc
  | String c rest =>
      digits_value_from (10 * acc + Z.of_nat (nat_of_ascii c - 48)) rest
  end.

(** An integer below 2^53 is a binary64 number. *)
Definition exact (n : Z) : option float :=
  if ((0 <=? n) && (n <? 2 ^ 53))%Z then Some (of_uint63 (Uint63.of_Z n))
  else None.

(** The value of the literal [whole.fraction].  Numerator and
    denominator are binary64 numbers, so the one division rounds the
    literal's value once, to nearest, as the engine reads it.  A whole
    part with a leading zero is not decimal in sloppy mode. *)
Definition literal (whole fraction : string) : option float :=
  match whole with
  | String "0" (String _ _) => None
  | _ =>
      match exact (digits_value_from 0 (whole ++ fraction)%string),
            exact (10 ^ Z.of_nat (String.length fraction)) with
      | Some n, Some d => Some (n / d)%float
      | _, _ => None
      end
  end.

(** [c] begins a two-character punctuator or a comment with what
    follows it: [++], [--], [**], [//], [/*]. *)
Definition doubles (c : ascii) (rest : string) : bool :=
  match rest with
  | String d _ =>
      (one_of "+-*/" c && Ascii.eqb c d) || (Ascii.eqb c "/" && Ascii.eqb d "*")
  | EmptyString => false
  end.

Fixpoint lex_from (skip : nat) (s : string) : option (list token) :=
  match s with
  | EmptyString => Some []
  | String c rest =>
      match skip with
      | S k => lex_from k rest
      | O =>
          if digit c || Ascii.eqb c "." then
            let (whole, after_whole) := span digit s in
            let '(point, fraction) :=
              match after_whole with
              | String "." after_point => (1, fst (span digit after_point))
              | _ => (0, EmptyString)
              end in
            if truthy whole || truthy fraction then
              match literal whole fraction,
                    lex_from (String.length whole + point + String.length fraction - 1) rest with
              | Some x, Some ts => Some (TNumber x :: ts)
              | _, _ => None
              end
            else None
          else if doubles c rest then None
          else
            let punctuator (t : token) :=
              option_map (cons t) (lex_from 0 rest) in
            if Ascii.eqb c "+" then punctuator TPlus
            else if Ascii.eqb c "-" then punctuator TMinus
            else if Ascii.eqb c "*" then punctuator TStar
            else if Ascii.eqb c "/" then punctuator TSlash
            else if Ascii.eqb c "(" then punctuator TOpen
            else if Ascii.eqb c ")" then punctuator TClose
            else None
      end
  end.

Definition parsed : Type := option (float * list token).

(** Recursive descent: unary signs bind tighter than [* /], which bind
    tighter than [+ -]; binary operators associate to the left. *)
Fixpoint unary (fuel : nat) (ts : list token) : parsed :=
  match fuel with
  | O => None
  | S f =>
      match ts with
      | TNumber x :: rest => Some (x, rest)
      | TPlus :: rest => unary f rest
      | TMinus :: rest =>
          match unary f rest with
          | Some (v, rest') => Some ((- v)%float, rest')
          | None => None
          end
      | TOpen :: rest =>
          match additive f rest with
          | Some (v, TClose :: rest') => Some (v, rest')
          | _ => None
          end
      | _ => None
      end
  end
with multiplicative_rest (fuel : nat) (acc : float) (ts : list token) : parsed :=
  match fuel with
  | O => None
  | S f =>
      match ts with
      | TStar :: rest =>
          match unary f rest with
          | Some (v, rest') => multiplicative_rest f (acc * v)%float rest'
          | None => None
          end
      | TSlash :: rest =>
          match unary f rest with
          | Some (v, rest') => multiplicative_rest f (acc / v)%float rest'
          | None => None
          end
      | _ => Some (acc, ts)
      end
  end
with additive_rest (fuel : nat) (acc : float) (ts : list token) : parsed :=
  match fuel with
  | O => None
  | S f =>
      match ts with
      | TPlus :: rest =>
          match unary f rest with
          | Some (v, rest') =>
              match multiplicative_rest f v rest' with
              | Some (w, rest'') => additive_rest f (acc + w)%float rest''
              | None => None
              end
          | None => None
          end
      | TMinus :: rest =>
          match unary f rest with
          | Some (v, rest') =>
              match multiplicative_rest f v rest' with
              | Some (w, rest'') => additive_rest f (acc - w)%float rest''
              | None => None
              end
          | None => None
          end
      | _ => Some (acc, ts)
      end
  end
with additive (fuel : nat) (ts : list token) : parsed :=
  match fuel with
  | O => None
  | S f =>
      match unary f ts with
      | Some (v, rest) =>
          match multiplicative_rest f v rest with
          | Some (w, rest') => additive_rest f w rest'
          | None => None
          end
      | None => None
      end
  end.

(** [return expr]: the whole text must be one expression. *)
Definition run_return (expr : string) : option float :=
  match lex_from 0 expr with
  | Some ts =>
      match additive (2 * List.length ts + 2) ts with
      | Some (v, []) => Some v
      | _ => None
      end
  | None => None
  end.

(** [parseFloat(x.toFixed(12))] for a finite [x].  [toFixed(12)] writes
    the integer [n] nearest to [|x| * 10^12], the larger one on a tie,
    as a decimal with twelve places; [parseFloat] reads it back rounded
    to nearest.  Below 8192 both [n] and [10^12] are binary64 numbers
    and one division rounds [n / 10^12] once.  From 8192 on, the
    neighbours of [x] are more than 10^-12 away and the text reads back
    as [x]. *)
Definition fixed12 (x : float) : float :=
  match Prim2SF x with
  | S754_finite negative m e =>
      if (abs x <? 8192)%float then
        let n :=
          if (0 <=? e)%Z then (Z.pos m * 2 ^ e * 10 ^ 12)%Z
          else ((2 * Z.pos m * 10 ^ 12 + 2 ^ (- e)) / (2 * 2 ^ (- e)))%Z in
        let magnitude :=
          (of_uint63 (Uint63.of_Z n) / of_uint63 (Uint63.of_Z (10 ^ 12)))%float in
        if negative then (- magnitude)%float else magnitude
      else x
  | S754_zero _ => zero
  | _ => x
  end.

End Arithmetic.

(** ** Events of the voice stream *)

(** The object [JSON.parse] returns for an event of the stream, with the
    properties the script reads, each of the type the wire format gives
    it.  [None] is a property that is absent or null: the script tells
    the two apart only under [clear], where both branches call
    [clearAll]. *)
Module Payload.
Record t : Type := make {
  type : option string;
  state : option string;
  message : option string;
  level : option string;
  action : option string;
  expression : option string;
  expression_confidence : option float
}.

(** An object without any of these properties, as an array is. *)
Definition empty : t := make None None None None None None None.
End Payload.

(** A JSON document. *)
Inductive Json : Type :=
| JNull
| JBool (b : bool)
| JNumber (x : float)
| JString (s : string)
| JArray
| JObject (o : Payload.t).

(** [event.data] of a message, as [onmessage] finds it. *)
Inductive MessageData : Type :=
| NoData                    (* [event.data] is empty *)
| InvalidJson               (* [JSON.parse(event.data)] throws *)
| Document (payload : Json). (* [JSON.parse(event.data)] returns it *)

(** ** The status line *)

Module VoiceUI.
Record t : Type := make {
  state : string;
  message : string;
  shown : string   (* [voiceStatusEl.textContent] *)
}.

(** [voiceUI.set(message, state = 'idle', level = 'info')].  The class
    toggles on the two elements are functions of [state] alone and are
    not kept. *)
Definition set (message state level : string) (ui : t) : t :=
  make state message
       (if negb (String.eqb level "debug") then message else shown ui).
End VoiceUI.

(** ** The [voiceControl] object *)

Module VoiceControl.
Record t : Type := make {
  active : bool;
  eventSource : option nat;      (* the open stream, by serial number *)
  reconnectTimer : option nat;   (* the timer id [setTimeout] returned *)
  reconnectAttempts : nat
}.
End VoiceControl.

(** What the script asks of the browser. *)
Inductive Effect : Type :=
| Fetch (path : string)                 (* [fetch(VOICE_API_BASE + path, { method: 'POST' })] *)
| NewEventSource (id : nat)             (* [new EventSource(VOICE_API_BASE + '/voice/stream')] *)
| Close (id : nat)                      (* [eventSource.close()] *)
| SetTimeout (id : nat) (delay : Z)
| ClearTimeout (id : nat)
| Console (method text : string)
| UpdateDisplay (expression : string)   (* [updateDisplay()] drawing this expression *)
| Calculate (expression : string).      (* [calculate()] past its guard *)

(** The rest of an [async] function, waiting for its fetch. *)
Inductive Continuation : Type :=
| AfterStartFetch                 (* [start], after [await fetch(.../voice/start)] *)
| AfterStopFetch (silent : bool)  (* [stop], after [await fetch(.../voice/stop)] *)
| AfterRestartFetch.              (* the reconnect timer's callback, after its fetch *)

(** How a fetch settles: the promise rejects, or resolves with a response
    whose [ok] is given. *)
Inductive Response : Type :=
| Rejected
| Status (ok : bool).

Record World : Type := mkWorld {
  currentExpression : string;
  shouldResetOnNextInput : bool;
  lastVoiceExpression : string;
  lastVoiceTimestamp : Z;
  voiceUI : VoiceUI.t;
  voiceControl : VoiceControl.t;
  pending : list Continuation;
  fresh : nat;              (* the next serial number or timer id *)
  trace : list Effect
}.

(** The globals as the script initialises them, after its
    [voiceUI.set('Mic off', 'idle')]. *)
Definition initial : World :=
  mkWorld "" false "" 0
          (VoiceUI.make "idle" "Mic off" "Mic off")
          (VoiceControl.make false None None 0)
          [] 0 [].

(** Assignments to the globals. *)

Definition set_currentExpression (v : string) (w : World) : World :=
  mkWorld v (shouldResetOnNextInput w) (lastVoiceExpression w)
          (lastVoiceTimestamp w) (voiceUI w) (voiceControl w) (pending w)
          (fresh w) (trace w).
Definition set_shouldResetOnNextInput (v : bool) (w : World) : World :=
  mkWorld (currentExpression w) v (lastVoiceExpression w)
          (lastVoiceTimestamp w) (voiceUI w) (voiceControl w) (pending w)
          (fresh w) (trace w).
Definition set_lastVoiceExpression (v : string) (w : World) : World :=
  mkWorld (currentExpression w) (shouldResetOnNextInput w) v
          (lastVoiceTimestamp w) (voiceUI w) (voiceControl w) (pending w)
          (fresh w) (trace w).
Definition set_lastVoiceTimestamp (v : Z) (w : World) : World :=
  mkWorld (currentExpression w) (shouldResetOnNextInput w)
          (lastVoiceExpression w) v (voiceUI w) (voiceControl w)
          (pending w) (fresh w) (trace w).
Definition set_voiceUI (v : VoiceUI.t) (w : World) : World :=
  mkWorld (currentExpression w) (shouldResetOnNextInput w)
          (lastVoiceExpression w) (lastVoiceTimestamp w) v
          (voiceControl w) (pending w) (fresh w) (trace w).
Definition set_voiceControl (v : VoiceControl.t) (w : World) : World :=
  mkWorld (currentExpression w) (shouldResetOnNextInput w)
          (lastVoiceExpression w) (lastVoiceTimestamp w)
          (voiceUI w) v (pending w) (fresh w) (trace w).
Definition set_pending (v : list Continuation) (w : World) : World :=
  mkWorld (currentExpression w) (shouldResetOnNextInput w)
          (lastVoiceExpression w) (lastVoiceTimestamp w)
          (voiceUI w) (voiceControl w) v (fresh w) (trace w).
Definition set_fresh (v : nat) (w : World) : World :=
  mkWorld (currentExpression w) (shouldResetOnNextInput w)
          (lastVoiceExpression w) (lastVoiceTimestamp w)
          (voiceUI w) (voiceControl w) (pending w) v (trace w).
Definition set_trace (v : list Effect) (w : World) : World :=
  mkWorld (currentExpression w) (shouldResetOnNextInput w)
          (lastVoiceExpression w) (lastVoiceTimestamp w)
          (voiceUI w) (voiceControl w) (pending w)
          (fresh w) v.

(** [this.active = v] and the like, on [voiceControl]. *)
Definition set_active (v : bool) (w : World) : World :=
  let c := voiceControl w in
  set_voiceControl
    (VoiceControl.make v (VoiceControl.eventSource c)
       (VoiceControl.reconnectTimer c) (VoiceControl.reconnectAttempts c)) w.
Definition set_eventSource (v : option nat) (w : World) : World :=
  let c := voiceControl w in
  set_voiceControl
    (VoiceControl.make (VoiceControl.active c) v
       (VoiceControl.reconnectTimer c) (VoiceControl.reconnectAttempts c)) w.
Definition set_reconnectTimer (v : option nat) (w : World) : World :=
  let c := voiceControl w in
  set_voiceControl
    (VoiceControl.make (VoiceControl.active c) (VoiceControl.eventSource c)
       v (VoiceControl.reconnectAttempts c)) w.
Definition set_reconnectAttempts (v : nat) (w : World) : World :=
  let c := voiceControl w in
  set_voiceControl
    (VoiceControl.make (VoiceControl.active c) (VoiceControl.eventSource c)
       (VoiceControl.reconnectTimer c) v) w.

(** The browser runs what the script asks: the request joins the trace. *)
Definition emit (e : Effect) (w : World) : World :=
  set_trace (trace w ++ [e]) w.

(** [await]: the rest of the function waits in [pending]. *)
Definition await (k : Continuation) (w : World) : World :=
  set_pending (pending w ++ [k]) w.

(** [voiceUI.set(message, state, level)] on the global [voiceUI]. *)
Definition voiceUI_set (message state level : string) (w : World) : World :=
  set_voiceUI (VoiceUI.set message state level (voiceUI w)) w.

(** [value || fallback] for a property that holds a string when present. *)
Definition or_else (value : option string) (fallback : string) : string :=
  match value with
  | Some s => if Text.truthy s then s else fallback
  | None => fallback
  end.

(** The truth value of a property that holds a string when present. *)
Definition present (value : option string) : bool :=
  match value with
  | Some s => Text.truthy s
  | None => false
  end.

(** ** The host calculator, as far as the voice code drives it *)

(** [updateDisplay()] writes to the page only. *)
Definition updateDisplay (w : World) : World :=
  emit (UpdateDisplay (currentExpression w)) w.

(** [calculate()], the part that runs during the call: the guard on an
    empty expression, then evaluation, history and animation, none of
    which assigns [currentExpression] or [shouldResetOnNextInput] (the
    script assigns them half a second later, inside a timer). *)
Definition calculate (w : World) : World :=
  if negb (Text.truthy (currentExpression w)) then w
  else emit (Calculate (currentExpression w)) w.

Definition clearAll (w : World) : World :=
  updateDisplay (set_shouldResetOnNextInput false (set_currentExpression "" w)).

Definition backspace (w : World) : World :=
  if negb (Text.truthy (currentExpression w)) then w
  else updateDisplay
         (set_currentExpression (Text.slice_0_minus1 (currentExpression w)) w).

(** ** Injection of a recognised expression *)

(** [[^0-9+\-*/().]]: the class of the [replace] of
    [injectVoiceExpression]. *)
Definition outside_voice_class (c : ascii) : bool :=
  negb (Text.in_range "0" "9" c || Text.one_of "+-*/()." c).

Definition deriveVoiceState (rawState : string) : string :=
  if String.eqb rawState "calibrating" || String.eqb rawState "listening"
  then "listening"
  else if String.eqb rawState "error" then "error"
  else "idle".

(** The binary64 number that the literal [0.4] denotes. *)
Definition low_confidence : float := 0x1.999999999999ap-2%float.

(** [injectVoiceExpression(expression, confidence)], with the value
    [Date.now()] returns during the call.  The flash of the expression
    element is a class on the page and is not kept. *)
Definition injectVoiceExpression
  (expression : option string) (confidence : float) (now : Z) (w : World)
  : World :=
  match expression with
  | None => w
  | Some expression =>
      if negb (Text.truthy expression) then w
      else
        let sanitized := Text.delete_all outside_voice_class expression in
        if negb (Text.truthy sanitized) then w
        else if String.eqb sanitized (lastVoiceExpression w)
                && (now - lastVoiceTimestamp w <? 300)%Z then w
        else
          let w :=
            if shouldResetOnNextInput w
            then set_shouldResetOnNextInput false (set_currentExpression "" w)
            else w in
          let w := set_currentExpression sanitized w in
          let w := updateDisplay w in
          let w := set_lastVoiceExpression sanitized w in
          let w := set_lastVoiceTimestamp now w in
          if (confidence <? low_confidence)%float
          then voiceUI_set "Low confidence, please repeat" "listening" "info" w
          else w
  end.

(** ** [voiceControl] *)

(** [stop({ silent })] up to its [await]. *)
Definition stop (silent : bool) (w : World) : World :=
  let w :=
    match VoiceControl.reconnectTimer (voiceControl w) with
    | Some timer => set_reconnectTimer None (emit (ClearTimeout timer) w)
    | None => w
    end in
  let w :=
    match VoiceControl.eventSource (voiceControl w) with
    | Some source => set_eventSource None (emit (Close source) w)
    | None => w
    end in
  await (AfterStopFetch silent) (emit (Fetch "/voice/stop") w).

(** [stop({ silent })] after its [await]: a rejected fetch is caught and
    warned about, then the function goes on. *)
Definition stop_resumed (silent : bool) (r : Response) (w : World) : World :=
  let w :=
    match r with
    | Rejected => emit (Console "warn" "Voice service stop warning") w
    | Status _ => w
    end in
  let w := set_active false w in
  let w := set_reconnectAttempts 0 w in
  if negb silent then voiceUI_set "Mic off" "idle" "info" w else w.

Definition _openEventStream (w : World) : World :=
  let w :=
    match VoiceControl.eventSource (voiceControl w) with
    | Some source => emit (Close source) w
    | None => w
    end in
  let source := fresh w in
  emit (NewEventSource source)
       (set_eventSource (Some source) (set_fresh (S source) w)).

(** [start()] up to its [await]. *)
Definition start (w : World) : World :=
  if VoiceControl.active (voiceControl w)
  then voiceUI_set "Listening…" "listening" "info" w
  else
    let w := voiceUI_set "Connecting to microphone…" "calibrating" "info" w in
    await AfterStartFetch (emit (Fetch "/voice/start") w).

(** [start()] after its [await]. *)
Definition start_resumed (r : Response) (w : World) : World :=
  match r with
  | Status true =>
      let w := set_active true w in
      let w := set_reconnectAttempts 0 w in
      _openEventStream w
  | _ =>
      let w := emit (Console "error" "Voice service start error") w in
      let w := set_active false w in
      voiceUI_set "Voice service unavailable" "error" "info" w
  end.

Definition toggle (w : World) : World :=
  if VoiceControl.active (voiceControl w) then stop false w else start w.

Definition _scheduleReconnect (w : World) : World :=
  match VoiceControl.reconnectTimer (voiceControl w) with
  | Some _ => w
  | None =>
      if (4 <=? VoiceControl.reconnectAttempts (voiceControl w))%nat then
        let w := emit (Console "error" "Voice service reconnection exhausted") w in
        let w := stop true w in
        voiceUI_set "Voice connection lost" "error" "info" w
      else
        let w :=
          set_reconnectAttempts
            (VoiceControl.reconnectAttempts (voiceControl w) + 1) w in
        let timer := fresh w in
        set_reconnectTimer (Some timer)
          (emit (SetTimeout timer 2000) (set_fresh (S timer) w))
  end.

(** The callback of the reconnect timer, up to its [await]. *)
Definition reconnect_fired (w : World) : World :=
  let w := set_reconnectTimer None w in
  await AfterRestartFetch (emit (Fetch "/voice/start") w).

(** The callback of the reconnect timer, after its [await]. *)
Definition reconnect_resumed (r : Response) (w : World) : World :=
  match r with
  | Status true =>
      let w := _openEventStream w in
      voiceUI_set "Listening…" "listening" "info" w
  | _ =>
      let w := emit (Console "error" "Voice reconnection failed") w in
      _scheduleReconnect w
  end.

(** ** Dispatch of a received event *)

(** [tag === name] for a property that holds a string when present. *)
Definition tag_is (tag : option string) (name : string) : bool :=
  match tag with
  | Some s => String.eqb s name
  | None => false
  end.

(** [payload.expression_confidence ?? 1] *)
Definition confidence_or_1 (payload : Payload.t) : float :=
  match Payload.expression_confidence payload with
  | Some c => c
  | None => 1%float
  end.

Definition handleVoiceResult (payload : Payload.t) (now : Z) (w : World)
  : World :=
  let action := Payload.action payload in
  if tag_is action "append_expression" then
    injectVoiceExpression (Payload.expression payload) (confidence_or_1 payload) now w
  else if tag_is action "calculate" then
    let w :=
      if present (Payload.expression payload)
      then injectVoiceExpression (Payload.expression payload)
             (confidence_or_1 payload) now w
      else w in
    calculate w
  else if tag_is action "clear" then
    match Payload.expression payload with
    | None => clearAll w
    | Some _ => clearAll w
    end
  else if tag_is action "backspace" then backspace w
  else if tag_is action "stop" then stop false w
  else w.

(** [!payload] *)
Definition falsy (payload : Json) : bool :=
  match payload with
  | JNull => true
  | JBool b => negb b
  | JNumber x => is_zero x || is_nan x
  | JString s => negb (Text.truthy s)
  | JArray | JObject _ => false
  end.

(** [typeof payload] *)
Definition typeof (payload : Json) : string :=
  match payload with
  | JNull | JArray | JObject _ => "object"
  | JBool _ => "boolean"
  | JNumber _ => "number"
  | JString _ => "string"
  end.

(** The properties the script reads from a payload that passed the guard
    of [handleVoicePayload]. *)
Definition properties (payload : Json) : Payload.t :=
  match payload with
  | JObject o => o
  | _ => Payload.empty
  end.

Definition handleVoicePayload (payload : Json) (now : Z) (w : World) : World :=
  if falsy payload || negb (String.eqb (typeof payload) "object") then w
  else
    let p := properties payload in
    if tag_is (Payload.type p) "status" then
      let state := deriveVoiceState (or_else (Payload.state p) "idle") in
      voiceUI_set (or_else (Payload.message p) "Listening…") state
                  (or_else (Payload.level p) "info") w
    else if tag_is (Payload.type p) "result" then
      let w := voiceUI_set "Listening…" "listening" "info" w in
      handleVoiceResult p now w
    else w.

(** [eventSource.onmessage] *)
Definition onmessage (data : MessageData) (now : Z) (w : World) : World :=
  match data with
  | NoData => w
  | InvalidJson => emit (Console "error" "Failed to parse voice payload") w
  | Document payload => handleVoicePayload payload now w
  end.

(** The listener of the [ping] events. *)
Definition onping (w : World) : World :=
  if VoiceControl.active (voiceControl w)
  then voiceUI_set "Listening…" "listening" "info" w
  else w.

(** [eventSource.onerror] *)
Definition onerror (w : World) : World :=
  let w := emit (Console "warn" "Voice stream encountered an error") w in
  let w :=
    match VoiceControl.eventSource (voiceControl w) with
    | Some source => set_eventSource None (emit (Close source) w)
    | None => w
    end in
  if negb (VoiceControl.active (voiceControl w))
  then voiceUI_set "Mic off" "idle" "info" w
  else
    let w := voiceUI_set "Reconnecting voice link…" "error" "info" w in
    _scheduleReconnect w.

(** ** The event loop *)

(** What can happen to the page: a call of a method of [voiceControl], a
    fetch that settles, an event of the open stream, the reconnect timer
    that fires. *)
Inductive Event : Type :=
| CallStart
| CallStop (silent : bool)
| CallToggle
| Settled (k : Continuation) (r : Response)
| StreamMessage (data : MessageData) (now : Z)
| StreamPing
| StreamError
| TimerFired.

Definition continuation_eqb (a b : Continuation) : bool :=
  match a, b with
  | AfterStartFetch, AfterStartFetch => true
  | AfterStopFetch s, AfterStopFetch s' => Bool.eqb s s'
  | AfterRestartFetch, AfterRestartFetch => true
  | _, _ => false
  end.

(** The first [k] of the waiting continuations leaves the list. *)
Fixpoint take_pending (k : Continuation) (ks : list Continuation)
  : option (list Continuation) :=
  match ks with
  | [] => None
  | k' :: rest =>
      if continuation_eqb k k' then Some rest
      else option_map (cons k') (take_pending k rest)
  end.

Definition resume (k : Continuation) (r : Response) (w : World) : World :=
  match k with
  | AfterStartFetch => start_resumed r w
  | AfterStopFetch silent => stop_resumed silent r w
  | AfterRestartFetch => reconnect_resumed r w
  end.

Definition is_some {A} (o : option A) : bool :=
  match o with Some _ => true | None => false end.

(** One task of the event loop; [None] when the event cannot happen in
    [w]: a closed stream sends nothing, a cleared timer does not fire, a
    fetch settles once. *)
Definition step (e : Event) (w : World) : option World :=
  match e with
  | CallStart => Some (start w)
  | CallStop silent => Some (stop silent w)
  | CallToggle => Some (toggle w)
  | Settled k r =>
      match take_pending k (pending w) with
      | Some rest => Some (resume k r (set_pending rest w))
      | None => None
      end
  | StreamMessage data now =>
      if is_some (VoiceControl.eventSource (voiceControl w))
      then Some (onmessage data now w) else None
  | StreamPing =>
      if is_some (VoiceControl.eventSource (voiceControl w))
      then Some (onping w) else None
  | StreamError =>
      if is_some (VoiceControl.eventSource (voiceControl w))
      then Some (onerror w) else None
  | TimerFired =>
      if is_some (VoiceControl.reconnectTimer (voiceControl w))
      then Some (reconnect_fired w) else None
  end.

Fixpoint run (events : list Event) (w : World) : option World :=
  match events with
  | [] => Some w
  | e :: rest =>
      match step e w with
      | Some w' => run rest w'
      | None => None
      end
  end.

(** ** The keypad *)

(** [s.slice(-1)]: the last character as a text, empty for the empty
    text. *)
Fixpoint slice_minus1 (s : string) : string :=
  match s with
  | EmptyString => EmptyString
  | String c EmptyString => String c EmptyString
  | String _ rest => slice_minus1 rest
  end.

(** [s.split(/[class]/)]: the parts between the characters of the class,
    empty parts included; the empty text has one empty part. *)
Fixpoint split (class : ascii -> bool) (s : string) : list string :=
  match s with
  | EmptyString => [EmptyString]
  | String c rest =>
      if class c then EmptyString :: split class rest
      else
        match split class rest with
        | part :: parts => String c part :: parts
        | [] => [String c EmptyString]
        end
  end.

(** [(s.match(/c/g) || []).length] for a single character [c]. *)
Fixpoint count_char (c : ascii) (s : string) : nat :=
  match s with
  | EmptyString => 0
  | String d rest => (if Ascii.eqb d c then 1 else 0) + count_char c rest
  end.

(** [/[class]$/.test(s)] *)
Fixpoint ends_with_class (class : ascii -> bool) (s : string) : bool :=
  match s with
  | EmptyString => false
  | String c EmptyString => class c
  | String _ rest => ends_with_class class rest
  end.

(** Every character of [s] is of the class. *)
Fixpoint all_of_class (class : ascii -> bool) (s : string) : bool :=
  match s with
  | EmptyString => true
  | String c rest => class c && all_of_class class rest
  end.

(** [[+\-*/%]] *)
Definition operator_class (c : ascii) : bool := Text.one_of "+-*/%" c.

(** [s.replace(/[+\-*/%]+$/, '')]: the match is the leftmost suffix made
    of operators only, which is the whole run of operators at the end. *)
Fixpoint strip_trailing_operators (s : string) : string :=
  match s with
  | EmptyString => EmptyString
  | String c rest =>
      if all_of_class operator_class s then EmptyString
      else String c (strip_trailing_operators rest)
  end.

(** The whole of [s] matches [\d+\.?\d*]. *)
Definition number_to_end (s : string) : bool :=
  let (whole, after_whole) := Text.span Text.digit s in
  Text.truthy whole &&
  match after_whole with
  | EmptyString => true
  | String c after_point =>
      Ascii.eqb c "." && all_of_class Text.digit after_point
  end.

(** [s.replace(/\d+\.?\d*$/, '')]: the match is the leftmost suffix that
    the pattern matches whole; the text before it stays.  Without such a
    suffix the text is unchanged. *)
Fixpoint strip_trailing_number (s : string) : string :=
  match s with
  | EmptyString => EmptyString
  | String c rest =>
      if number_to_end s then EmptyString
      else String c (strip_trailing_number rest)
  end.

Definition isOperator (char : string) : bool :=
  String.eqb char "+" || String.eqb char "-" || String.eqb char "*"
  || String.eqb char "/" || String.eqb char "%".

Definition getLastChar (w : World) : string :=
  slice_minus1 (currentExpression w).

(** [canAddOperator()], as the truth value of what it returns. *)
Definition canAddOperator (w : World) : bool :=
  let lastChar := getLastChar w in
  Text.truthy (currentExpression w) && negb (isOperator lastChar)
  && negb (String.eqb lastChar ".").

Definition canAddDecimal (w : World) : bool :=
  let parts := split operator_class (currentExpression w) in
  let lastPart := List.last parts EmptyString in
  negb (Text.includes lastPart ".").

Definition addDigit (digit : string) (w : World) : World :=
  let w :=
    if shouldResetOnNextInput w
    then set_shouldResetOnNextInput false (set_currentExpression "" w)
    else w in
  if String.eqb digit "0" && String.eqb (currentExpression w) "0" then w
  else
    let w :=
      if String.eqb (currentExpression w) "0" && negb (String.eqb digit ".")
      then set_currentExpression digit w
      else set_currentExpression (currentExpression w ++ digit)%string w in
    updateDisplay w.

Definition addOperator (operator : string) (w : World) : World :=
  let w :=
    if shouldResetOnNextInput w then set_shouldResetOnNextInput false w
    else w in
  if negb (Text.truthy (currentExpression w)) then
    let w :=
      if String.eqb operator "-" then set_currentExpression "-" w else w in
    updateDisplay w
  else
    let lastChar := getLastChar w in
    let w :=
      if isOperator lastChar then
        set_currentExpression
          (Text.slice_0_minus1 (currentExpression w) ++ operator)%string w
      else if negb (String.eqb lastChar ".") then
        set_currentExpression (currentExpression w ++ operator)%string w
      else w in
    updateDisplay w.

Definition addDecimal (w : World) : World :=
  let w :=
    if shouldResetOnNextInput w
    then set_shouldResetOnNextInput false (set_currentExpression "0" w)
    else w in
  let w :=
    if negb (Text.truthy (currentExpression w))
    then set_currentExpression "0." w
    else if canAddDecimal w && negb (isOperator (getLastChar w))
    then set_currentExpression (currentExpression w ++ ".")%string w
    else w in
  updateDisplay w.

Definition addParenthesis (paren : string) (w : World) : World :=
  let w :=
    if shouldResetOnNextInput w then set_shouldResetOnNextInput false w
    else w in
  let w :=
    if String.eqb paren "(" then
      let lastChar := getLastChar w in
      let w :=
        if Text.truthy lastChar && negb (isOperator lastChar)
           && negb (String.eqb lastChar "(")
        then set_currentExpression (currentExpression w ++ "*")%string w
        else w in
      set_currentExpression (currentExpression w ++ "(")%string w
    else if String.eqb paren ")" then
      let openCount := count_char "(" (currentExpression w) in
      let closeCount := count_char ")" (currentExpression w) in
      if (closeCount <? openCount)%nat && negb (isOperator (getLastChar w))
      then set_currentExpression (currentExpression w ++ ")")%string w
      else w
    else w in
  updateDisplay w.

Definition clearEntry (w : World) : World :=
  if negb (Text.truthy (currentExpression w)) then w
  else
    let w :=
      if ends_with_class Text.digit (currentExpression w)
      then set_currentExpression
             (strip_trailing_number (currentExpression w)) w
      else set_currentExpression
             (Text.slice_0_minus1 (currentExpression w)) w in
    updateDisplay w.

Definition useHistoryEntry (result : string) (w : World) : World :=
  updateDisplay
    (set_shouldResetOnNextInput true (set_currentExpression result w)).

(** The text [expr] of [calculate()], past the guard on an empty
    expression: the expression with its open parentheses closed, then
    without the operators at its end.  [None] is the [RangeError] that
    [')'.repeat] throws for a negative count.  An empty [expr] makes
    [calculate()] return; any other goes to [safeEvaluate]. *)
Definition calculate_expr (w : World) : option string :=
  let openCount := count_char "(" (currentExpression w) in
  let closeCount := count_char ")" (currentExpression w) in
  if (openCount <? closeCount)%nat then None
  else
    let expr :=
      (currentExpression w
       ++ string_of_list_ascii (List.repeat ")"%char (openCount - closeCount)))%string in
    Some (strip_trailing_operators expr).

(** ** Vocabulary of the specification *)

(** The characters the specification lets through to the host: digits,
    arithmetic operators, parentheses and the decimal point. *)
Definition decimal_digit (c : ascii) : Prop :=
  (nat_of_ascii "0" <= nat_of_ascii c <= nat_of_ascii "9")%nat.
Definition arithmetic_operator (c : ascii) : Prop :=
  c = "+"%char \/ c = "-"%char \/ c = "*"%char \/ c = "/"%char.
Definition parenthesis (c : ascii) : Prop :=
  c = "("%char \/ c = ")"%char.
Definition decimal_point (c : ascii) : Prop := c = "."%char.

Definition survives (c : ascii) : Prop :=
  decimal_digit c \/ arithmetic_operator c \/ parenthesis c \/ decimal_point c.

(** [strips received accepted]: [accepted] is [received] with every
    character that does not survive removed and nothing else changed. *)
Inductive strips : string -> string -> Prop :=
| strips_end : strips "" ""
| strips_keep c received accepted :
    survives c -> strips received accepted ->
    strips (String c received) (String c accepted)
| strips_drop c received accepted :
    ~ survives c -> strips received accepted ->
    strips (String c received) accepted.

(** Every character of a string has a property. *)
Fixpoint every (P : ascii -> Prop) (s : string) : Prop :=
  match s with
  | EmptyString => True
  | String c rest => P c /\ every P rest
  end.

(** The sanitised form of a recognised expression. *)
Definition sanitize (expression : string) : string :=
  Text.delete_all outside_voice_class expression.

(** The drawings of the host expression among the requests of a trace. *)
Fixpoint display_updates (t : list Effect) : nat :=
  match t with
  | [] => 0
  | UpdateDisplay _ :: rest => S (display_updates rest)
  | _ :: rest => display_updates rest
  end.

(** A sanitised expression repeats the last accepted one inside the
    window of 300 milliseconds. *)
Definition duplicate (sanitized : string) (now : Z) (w : World) : Prop :=
  sanitized = lastVoiceExpression w /\ (now - lastVoiceTimestamp w < 300)%Z.

(** Nothing of an event reached the host: its variables and the last
    accepted pair are as before and nothing was asked of the browser. *)
Definition discarded (w w' : World) : Prop :=
  currentExpression w' = currentExpression w /\
  shouldResetOnNextInput w' = shouldResetOnNextInput w /\
  lastVoiceExpression w' = lastVoiceExpression w /\
  lastVoiceTimestamp w' = lastVoiceTimestamp w /\
  trace w' = trace w.

(** The sanitised expression became the host expression and the last
    accepted pair. *)
Definition accepted (sanitized : string) (now : Z) (w' : World) : Prop :=
  currentExpression w' = sanitized /\
  lastVoiceExpression w' = sanitized /\
  lastVoiceTimestamp w' = now.

(** Deduplication as the specification words it, for every
    [append_expression] or [calculate] result event whose expression
    sanitises to a text that is not empty. *)
Definition every_result_event_is_deduplicated : Prop :=
  forall (p : Payload.t) (received : string) (now : Z) (w : World),
    Payload.type p = Some "result" ->
    Payload.action p = Some "append_expression" \/
    Payload.action p = Some "calculate" ->
    Payload.expression p = Some received ->
    sanitize received <> "" ->
    let w' := handleVoicePayload (JObject p) now w in
    (duplicate (sanitize received) now w -> discarded w w') /\
    ((300 <= now - lastVoiceTimestamp w)%Z \/
     sanitize received <> lastVoiceExpression w ->
     accepted (sanitize received) now w').

(** What the [calculate()] at the end of a [calculate] event asks of the
    browser when the host expression is [expression]: the calculation,
    unless the expression is empty; nothing for an event with another
    action. *)
Definition calculation (p : Payload.t) (expression : string) : list Effect :=
  if tag_is (Payload.action p) "calculate" && Text.truthy expression
  then [Calculate expression]
  else [].

(** The tags the script dispatches on. *)
Definition known_type (tag : option string) : Prop :=
  tag = Some "status" \/ tag = Some "result".

Definition known_action (tag : option string) : Prop :=
  tag = Some "append_expression" \/ tag = Some "calculate" \/
  tag = Some "clear" \/ tag = Some "backspace" \/ tag = Some "stop".

(** An event whose type tag is unknown, or a result event whose action
    tag is unknown. *)
Definition unknown_tag (p : Payload.t) : Prop :=
  ~ known_type (Payload.type p) \/
  (Payload.type p = Some "result" /\ ~ known_action (Payload.action p)).

(** The one report the script has for a payload it cannot read: the
    [console.error] of the [catch] in [onmessage]. *)
Definition malformed_report : Effect :=
  Console "error" "Failed to parse voice payload".

(** Handling took [w] to [w'] and reported a malformed payload on the
    way. *)
Definition reported_malformed (w w' : World) : Prop :=
  exists asked, trace w' = (trace w ++ asked)%list /\ In malformed_report asked.

(** The design note as a property of the script: an unknown tag is
    reported as a malformed payload. *)
Definition unknown_tags_are_rejected : Prop :=
  forall (p : Payload.t) (now : Z) (w : World),
    unknown_tag p ->
    reported_malformed w (onmessage (Document (JObject p)) now w).

(** A document that is not an object, as the guard of
    [handleVoicePayload] tests it. *)
Definition not_an_object (payload : Json) : Prop :=
  falsy payload = true \/ typeof payload <> "object".

(** A message body that cannot be parsed: the empty body and any other
    text that is not JSON, on which [JSON.parse] throws, and a JSON
    document that is not an object. *)
Definition unparseable (data : MessageData) : Prop :=
  data = NoData \/ data = InvalidJson \/
  exists payload, data = Document payload /\ not_an_object payload.

(** The error taxonomy as a property of the script: a body that cannot
    be parsed is logged, and nothing else happens. *)
Definition unparseable_is_logged_and_dropped : Prop :=
  forall (data : MessageData) (now : Z) (w : World),
    unparseable data ->
    onmessage data now w = emit malformed_report w.

(** The same payload with another confidence. *)
Definition with_confidence (c : option float) (p : Payload.t) : Payload.t :=
  Payload.make (Payload.type p) (Payload.state p) (Payload.message p)
               (Payload.level p) (Payload.action p) (Payload.expression p) c.

(** The request to repeat, on the status line. *)
Definition ask_to_repeat (w : World) : World :=
  voiceUI_set "Low confidence, please repeat" "listening" "info" w.

(** The status line after the request to repeat, and after the
    reaffirmation that opens the handling of every result event. *)
Definition asking_to_repeat : VoiceUI.t :=
  VoiceUI.make "listening" "Low confidence, please repeat"
               "Low confidence, please repeat".
Definition reaffirmed_listening : VoiceUI.t :=
  VoiceUI.make "listening" "Listening…" "Listening…".

(** The fetches of one path among the requests of a trace. *)
Fixpoint fetches (path : string) (t : list Effect) : nat :=
  match t with
  | [] => 0
  | Fetch p :: rest =>
      (if String.eqb p path then 1 else 0) + fetches path rest
  | _ :: rest => fetches path rest
  end.

(** A fetch of [/voice/start] succeeds when it resolves with an [ok]
    response. *)
Definition succeeded (r : Response) : bool :=
  match r with
  | Status true => true
  | _ => false
  end.

(** One reconnect attempt: the timer fires, the fetch it starts settles. *)
Definition attempt (r : Response) : list Event :=
  [TimerFired; Settled AfterRestartFetch r].

(** The events that call [start()]: the call itself, and [toggle()],
    which calls it when the consumer is not active. *)
Definition calls_start (e : Event) : bool :=
  match e with
  | CallStart | CallToggle => true
  | _ => false
  end.

Definition is_stop_continuation (k : Continuation) : bool :=
  match k with
  | AfterStopFetch _ => true
  | _ => false
  end.

(** Nothing is left that could reconnect: no stream whose error would
    schedule an attempt, no timer, no fetch of [/voice/start] in flight. *)
Definition given_up (w : World) : Prop :=
  VoiceControl.eventSource (voiceControl w) = None /\
  VoiceControl.reconnectTimer (voiceControl w) = None /\
  forallb is_stop_continuation (pending w) = true.

(** The consumer between two reconnect attempts, [n] of them counted:
    active, its stream closed, the timer of the next attempt set, no fetch
    in flight. *)
Definition reconnecting (n : nat) (w : World) : Prop :=
  VoiceControl.active (voiceControl w) = true /\
  VoiceControl.eventSource (voiceControl w) = None /\
  is_some (VoiceControl.reconnectTimer (voiceControl w)) = true /\
  VoiceControl.reconnectAttempts (voiceControl w) = n /\
  pending w = [].

(** A reconnect attempt fails when its fetch rejects or resolves with a
    response that is not [ok]. *)
Definition failed (r : Response) : bool := negb (succeeded r).

(** A listening consumer: active, its stream open, no timer set and no
    fetch of [/voice/start] in flight. *)
Definition listening (w : World) : Prop :=
  VoiceControl.active (voiceControl w) = true /\
  is_some (VoiceControl.eventSource (voiceControl w)) = true /\
  VoiceControl.reconnectTimer (voiceControl w) = None /\
  forallb is_stop_continuation (pending w) = true.

(** The consumer between two reconnect attempts, [n] of them counted
    since [start()] or [stop()] last reset the counter: active, its stream
    closed, the timer of the next attempt set, no fetch of [/voice/start]
    in flight. *)
Definition retrying (n : nat) (w : World) : Prop :=
  VoiceControl.active (voiceControl w) = true /\
  VoiceControl.eventSource (voiceControl w) = None /\
  is_some (VoiceControl.reconnectTimer (voiceControl w)) = true /\
  VoiceControl.reconnectAttempts (voiceControl w) = n /\
  forallb is_stop_continuation (pending w) = true.

(** The cleaned form of an expression: what the first [replace] of
    [safeEvaluate] leaves. *)
Definition cleaned (expression : string) : string :=
  Text.delete_all Evaluator.outside_clean_class expression.

(** The guard read as a test on the cleaned form: every expression whose
    cleaned form contains [/0] is refused. *)
Definition refuses_every_cleaned_slash_zero
  (run_return : string -> option float) (fixed12 : float -> float) : Prop :=
  forall expression : string,
    Text.includes (cleaned expression) "/0" = true ->
    Evaluator.safeEvaluate run_return fixed12 expression =
    Evaluator.Throws "Invalid expression".

(** [s] followed by the character [c]. *)
Definition snoc (s : string) (c : ascii) : string :=
  (s ++ String c EmptyString)%string.

(** The last character of a text. *)
Fixpoint last_char (s : string) : option ascii :=
  match s with
  | EmptyString => None
  | String c EmptyString => Some c
  | String _ rest => last_char rest
  end.

(** No two neighbours [a b] in the text form a bad pair. *)
Fixpoint pairs_ok (bad : ascii -> ascii -> bool) (s : string) : bool :=
  match s with
  | String a rest =>
      match rest with
      | String b _ => negb (bad a b) && pairs_ok bad rest
      | EmptyString => true
      end
  | EmptyString => true
  end.

(** Two operators side by side. *)
Definition doubled_operator (a b : ascii) : bool :=
  operator_class a && operator_class b.

Definition no_doubled_operator (s : string) : Prop :=
  pairs_ok doubled_operator s = true.

(** An opening parenthesis right after a character that is neither an
    operator nor an opening parenthesis: of the characters of the keypad,
    after a digit, a point or a closing parenthesis, where the engine
    would read a call. *)
Definition open_after_operand (a b : ascii) : bool :=
  Ascii.eqb b "(" && negb (operator_class a || Ascii.eqb a "(").

Definition no_open_after_operand (s : string) : Prop :=
  pairs_ok open_after_operand s = true.

(** Every operand, that is every part between operators, holds at most
    one decimal point. *)
Definition one_point_per_operand (s : string) : Prop :=
  Forall (fun part => count_char "." part <= 1) (split operator_class s).

(** No beginning of the text closes more parentheses than it opens. *)
Definition never_overclosed (s : string) : Prop :=
  forall t u : string,
    s = (t ++ u)%string -> count_char ")" t <= count_char "(" t.

(** The text is its own cleaned form: [safeEvaluate] drops none of its
    characters. *)
Definition only_calculator_characters (s : string) : Prop :=
  Text.delete_all Evaluator.outside_clean_class s = s.

(** A property of the expression that holds of the empty expression and
    that every editing key keeps: a digit [d], an operator [o], the
    point, the two parentheses, CE, backspace and C. *)
Definition keypad_keeps (P : string -> Prop) : Prop :=
  P "" /\
  forall (w : World) (d o : ascii),
    Text.digit d = true ->
    operator_class o = true ->
    P (currentExpression w) ->
    P (currentExpression (addDigit (String d "") w)) /\
    P (currentExpression (addOperator (String o "") w)) /\
    P (currentExpression (addDecimal w)) /\
    P (currentExpression (addParenthesis "(" w)) /\
    P (currentExpression (addParenthesis ")" w)) /\
    P (currentExpression (clearEntry w)) /\
    P (currentExpression (backspace w)) /\
    P (currentExpression (clearAll w)).

(** What one editing key can do to the expression, in single
    characters. *)
Inductive keystroke : string -> string -> Prop :=
| key_drop s c : keystroke (snoc s c) s
| key_digit s d : Text.digit d = true -> keystroke s (snoc s d)
| key_operator s o :
    operator_class o = true ->
    match last_char s with
    | Some a => operator_class a = false
    | None => True
    end ->
    keystroke s (snoc s o)
| key_replace s old o :
    operator_class old = true -> operator_class o = true ->
    keystroke (snoc s old) (snoc s o)
| key_point s :
    Text.includes (List.last (split operator_class s) EmptyString) "." = false ->
    keystroke s (snoc s ".")
| key_open s :
    match last_char s with
    | Some a => operator_class a = true \/ a = "("%char
    | None => True
    end ->
    keystroke s (snoc s "(")
| key_close s :
    count_char ")" s < count_char "(" s ->
    keystroke s (snoc s ")").

Inductive keystrokes : string -> string -> Prop :=
| keys_none s : keystrokes s s
| keys_more s t u : keystroke s t -> keystrokes t u -> keystrokes s u.

(** The streams that a trace opened and did not close, oldest first,
    starting from the streams [held]. *)
Fixpoint open_streams_from (held : list nat) (t : list Effect) : list nat :=
  match t with
  | [] => held
  | NewEventSource id :: rest => open_streams_from (held ++ [id]) rest
  | Close id :: rest =>
      open_streams_from (List.remove Nat.eq_dec id held) rest
  | _ :: rest => open_streams_from held rest
  end.

Definition open_streams (t : list Effect) : list nat := open_streams_from [] t.

(** The stream [voiceControl.eventSource] refers to, if any. *)
Definition held_stream (w : World) : list nat :=
  match VoiceControl.eventSource (voiceControl w) with
  | Some id => [id]
  | None => []
  end.

(** A world the page can be in: some run of events leads to it from the
    initial one. *)
Definition reachable (w : World) : Prop :=
  exists events, run events initial = Some w.

(** The terminal error state: the status line says [error] and nothing is
    left that could reconnect. *)
Definition terminal_error (w : World) : Prop :=
  VoiceUI.state (voiceUI w) = "error" /\ given_up w.

(** The reconnect bound as the specification words it: when the stream
    of a listening consumer fails and the reconnect attempts that follow
    all fail, the consumer is in its terminal error state after exactly
    four of them. *)
Definition gives_up_after_exactly_four_failures : Prop :=
  forall (w w' : World) (failures : list Response),
    reachable w ->
    listening w ->
    forallb failed failures = true ->
    run (StreamError :: flat_map attempt failures) w = Some w' ->
    (terminal_error w' <-> length failures = 4).

(** A request that neither opens nor closes a stream. *)
Definition leaves_streams (e : Effect) : bool :=
  match e with
  | NewEventSource _ | Close _ => false
  | _ => true
  end.

(** The attempt counter is within the cap and the open streams are the
    one [voiceControl] holds. *)
Definition streams_in_hand (w : World) : Prop :=
  VoiceControl.reconnectAttempts (voiceControl w) <= 4 /\
  open_streams (trace w) = held_stream w.

(** A consumer at rest: inactive, no stream, no timer, no fetch in
    flight. *)
Definition at_rest (w : World) : Prop :=
  VoiceControl.active (voiceControl w) = false /\
  VoiceControl.eventSource (voiceControl w) = None /\
  VoiceControl.reconnectTimer (voiceControl w) = None /\
  pending w = [].

(** A consumer whose reconnect timer has fired and whose fetch of
    [/voice/start] has not settled yet. *)
Definition restart_in_flight (w : World) : Prop :=
  VoiceControl.active (voiceControl w) = true /\
  VoiceControl.eventSource (voiceControl w) = None /\
  VoiceControl.reconnectTimer (voiceControl w) = None /\
  pending w = [AfterRestartFetch].

(** The states [deriveVoiceState] can answer. *)
Definition derived_state (state : string) : Prop :=
  state = "listening" \/ state = "error" \/ state = "idle".

(** ** Sanitising *)

Lemma outside_voice_class_false (c : ascii) :
  outside_voice_class c = false <-> survives c.
Proof.
  unfold outside_voice_class, survives, decimal_digit, arithmetic_operator,
    parenthesis, decimal_point, Text.in_range.
  rewrite negb_false_iff, orb_true_iff, andb_true_iff, !Nat.leb_le.
  cbn [Text.one_of]. rewrite orb_false_r, !orb_true_iff, !Ascii.eqb_eq.
  tauto.
Qed.

Lemma outside_voice_class_true (c : ascii) :
  outside_voice_class c = true <-> ~ survives c.
Proof.
  rewrite <- outside_voice_class_false.
  destruct (outside_voice_class c); split; congruence.
Qed.

Lemma sanitize_strips (expression : string) :
  strips expression (sanitize expression).
Proof.
  unfold sanitize.
  induction expression as [|c rest IH]; cbn [Text.delete_all].
  - constructor.
  - destruct (outside_voice_class c) eqn:E.
    + apply strips_drop; [now apply outside_voice_class_true | exact IH].
    + apply strips_keep; [now apply outside_voice_class_false | exact IH].
Qed.

Lemma strips_functional (received accepted : string) :
  strips received accepted -> accepted = sanitize received.
Proof.
  unfold sanitize.
  induction 1 as [|c r a Hc _ IH|c r a Hc _ IH]; cbn [Text.delete_all].
  - reflexivity.
  - apply outside_voice_class_false in Hc. rewrite Hc. now f_equal.
  - apply outside_voice_class_true in Hc. now rewrite Hc.
Qed.

Lemma sanitize_survivors (expression : string) :
  every survives (sanitize expression).
Proof.
  unfold sanitize.
  induction expression as [|c rest IH]; cbn [Text.delete_all every].
  - exact I.
  - destruct (outside_voice_class c) eqn:E; [exact IH|].
    cbn [every]. split; [now apply outside_voice_class_false | exact IH].
Qed.

Lemma truthy_false (s : string) : Text.truthy s = false <-> s = "".
Proof. destruct s; cbn; split; congruence. Qed.

Lemma truthy_true (s : string) : Text.truthy s = true <-> s <> "".
Proof. destruct s; cbn; split; congruence. Qed.

(** ** Injection *)

(** The three ways [injectVoiceExpression] ends. *)
Lemma injectVoiceExpression_cases
  (expression : option string) (confidence : float) (now : Z) (w : World) :
  let w' := injectVoiceExpression expression confidence now w in
  w' = w \/
  exists received,
    expression = Some received /\ sanitize received <> "" /\
    ~ (sanitize received = lastVoiceExpression w /\ (now - lastVoiceTimestamp w < 300)%Z) /\
    currentExpression w' = sanitize received /\
    shouldResetOnNextInput w' = false /\
    lastVoiceExpression w' = sanitize received /\
    lastVoiceTimestamp w' = now /\
    trace w' = (trace w ++ [UpdateDisplay (sanitize received)])%list /\
    voiceControl w' = voiceControl w /\
    pending w' = pending w /\
    fresh w' = fresh w /\
    voiceUI w' =
      (if (confidence <? low_confidence)%float
       then VoiceUI.set "Low confidence, please repeat" "listening" "info" (voiceUI w)
       else voiceUI w).
Proof.
  cbv zeta. unfold injectVoiceExpression.
  destruct expression as [received|]; [|now left].
  destruct (Text.truthy received); [|now left]. cbn [negb].
  fold (sanitize received).
  destruct (Text.truthy (sanitize received)) eqn:Hs; [|now left]. cbn [negb].
  apply truthy_true in Hs.
  destruct (String.eqb (sanitize received) (lastVoiceExpression w)
            && (now - lastVoiceTimestamp w <? 300)%Z) eqn:Hdup; [now left|].
  right. exists received.
  assert (Hnot : ~ (sanitize received = lastVoiceExpression w /\
                    (now - lastVoiceTimestamp w < 300)%Z)).
  { intros [Heq Hlt]. apply String.eqb_eq in Heq. apply Z.ltb_lt in Hlt.
    rewrite Heq, Hlt in Hdup. discriminate. }
  destruct (shouldResetOnNextInput w) eqn:Hreset,
    (confidence <? low_confidence)%float;
    repeat (split; [first [reflexivity | assumption]|]);
    first [reflexivity | assumption].
Qed.

Lemma injectVoiceExpression_usable
  (received : string) (confidence : float) (now : Z) (w : World) :
  sanitize received <> "" ->
  let w' := injectVoiceExpression (Some received) confidence now w in
  (duplicate (sanitize received) now w -> w' = w) /\
  (~ duplicate (sanitize received) now w ->
   accepted (sanitize received) now w' /\
   trace w' = trace w ++ [UpdateDisplay (sanitize received)]).
Proof.
  intros Hs. cbv zeta.
  assert (Hr : Text.truthy received = true).
  { destruct received; [|reflexivity]. now elim Hs. }
  unfold injectVoiceExpression. rewrite Hr. cbn [negb].
  fold (sanitize received).
  apply truthy_true in Hs. rewrite Hs. cbn [negb].
  destruct (String.eqb (sanitize received) (lastVoiceExpression w)
            && (now - lastVoiceTimestamp w <? 300)%Z) eqn:Hdup.
  - split; [reflexivity|]. intros Hno. exfalso. apply Hno.
    apply andb_true_iff in Hdup as [He Hl].
    split; [now apply String.eqb_eq | now apply Z.ltb_lt].
  - split.
    + intros [He Hl]. apply String.eqb_eq in He. apply Z.ltb_lt in Hl.
      rewrite He, Hl in Hdup. discriminate.
    + intros _.
      destruct (shouldResetOnNextInput w), (confidence <? low_confidence)%float;
        repeat split.
Qed.

(** An expression that is usable and repeats nothing is injected: the
    world that results is the same for every confidence, up to the
    request to repeat. *)
Lemma injectVoiceExpression_fresh (received : string) (now : Z) (w : World) :
  sanitize received <> "" ->
  ~ duplicate (sanitize received) now w ->
  exists w1,
    (forall confidence,
        injectVoiceExpression (Some received) confidence now w =
        if (confidence <? low_confidence)%float
        then voiceUI_set "Low confidence, please repeat" "listening" "info" w1
        else w1) /\
    currentExpression w1 = sanitize received /\
    shouldResetOnNextInput w1 = false /\
    lastVoiceExpression w1 = sanitize received /\
    lastVoiceTimestamp w1 = now /\
    trace w1 = trace w ++ [UpdateDisplay (sanitize received)] /\
    voiceUI w1 = voiceUI w /\
    voiceControl w1 = voiceControl w /\
    pending w1 = pending w.
Proof.
  intros Hs Hfresh.
  assert (Hr : Text.truthy received = true).
  { destruct received; [|reflexivity]. now elim Hs. }
  assert (Hno : String.eqb (sanitize received) (lastVoiceExpression w)
                && (now - lastVoiceTimestamp w <? 300)%Z = false).
  { destruct (String.eqb _ _) eqn:He; [|reflexivity].
    destruct (_ <? _)%Z eqn:Hl; [|reflexivity].
    elim Hfresh. split; [now apply String.eqb_eq | now apply Z.ltb_lt]. }
  apply truthy_true in Hs.
  unfold injectVoiceExpression. fold (sanitize received).
  rewrite Hr, Hs, Hno. cbn [negb]. cbv zeta.
  eexists. split; [intros confidence; reflexivity|].
  destruct (shouldResetOnNextInput w) eqn:Hreset; repeat split; assumption.
Qed.

(** C3.  Whatever [injectVoiceExpression] receives, either the call
    changes nothing, or the expression the host calculator holds
    afterwards is the received one with every character other than a
    digit, an arithmetic operator, a parenthesis or the decimal point
    removed, the survivors kept in their order. *)
Theorem C3_accepted_expression_is_sanitized
  (expression : option string) (confidence : float) (now : Z) (w : World) :
  let w' := injectVoiceExpression expression confidence now w in
  w' = w \/
  exists received,
    expression = Some received /\
    strips received (currentExpression w') /\
    every survives (currentExpression w').
Proof.
  cbv zeta.
  destruct (injectVoiceExpression_cases expression confidence now w)
    as [Same | (received & He & _ & _ & Hcur & _)]; [now left|].
  right. exists received. rewrite Hcur.
  split; [exact He|]. split; [apply sanitize_strips | apply sanitize_survivors].
Qed.

(** C10.  When the expression of a result event is absent, or sanitises
    to the empty string, [injectVoiceExpression] returns the globals as it
    found them: the host expression, the reset flag, the last accepted
    expression and its timestamp keep their values, and so does
    everything else. *)
Theorem C10_unusable_expression_changes_nothing
  (expression : option string) (confidence : float) (now : Z) (w : World) :
  expression = None \/
  (exists received, expression = Some received /\ sanitize received = "") ->
  let w' := injectVoiceExpression expression confidence now w in
  w' = w /\
  currentExpression w' = currentExpression w /\
  shouldResetOnNextInput w' = shouldResetOnNextInput w /\
  lastVoiceExpression w' = lastVoiceExpression w /\
  lastVoiceTimestamp w' = lastVoiceTimestamp w.
Proof.
  intros H. cbv zeta.
  assert (Same : injectVoiceExpression expression confidence now w = w).
  { destruct H as [-> | (received & -> & Hs)]; [reflexivity|].
    unfold injectVoiceExpression. fold (sanitize received). rewrite Hs.
    now destruct (Text.truthy received). }
  rewrite Same. repeat split.
Qed.

(** The text ["hello"] holds no character that survives; a payload with
    no expression holds none at all. *)
Lemma C10_witness :
  (Some "hello" = None \/
   (exists received, Some "hello" = Some received /\ sanitize received = "")) /\
  injectVoiceExpression (Some "hello") 1 1000 initial = initial.
Proof.
  assert (H : Some "hello" = None \/
              (exists received, Some "hello" = Some received /\ sanitize received = "")).
  { right. exists "hello". split; reflexivity. }
  split; [exact H|].
  exact (proj1 (C10_unusable_expression_changes_nothing (Some "hello") 1 1000 initial H)).
Defined.

(** ** Deduplication *)

Lemma handleVoicePayload_result (p : Payload.t) (now : Z) (w : World) :
  Payload.type p = Some "result" ->
  handleVoicePayload (JObject p) now w =
  handleVoiceResult p now (voiceUI_set "Listening…" "listening" "info" w).
Proof.
  intros Ht. unfold handleVoicePayload. cbn [falsy typeof properties orb negb].
  rewrite Ht. reflexivity.
Qed.

Lemma display_updates_app (t u : list Effect) :
  display_updates (t ++ u) = display_updates t + display_updates u.
Proof.
  induction t as [|e t IH]; [reflexivity|].
  destruct e; cbn [display_updates app]; rewrite IH; reflexivity.
Qed.

Lemma calculate_frame (w : World) :
  currentExpression (calculate w) = currentExpression w /\
  shouldResetOnNextInput (calculate w) = shouldResetOnNextInput w /\
  lastVoiceExpression (calculate w) = lastVoiceExpression w /\
  lastVoiceTimestamp (calculate w) = lastVoiceTimestamp w /\
  display_updates (trace (calculate w)) = display_updates (trace w).
Proof.
  unfold calculate. destruct (Text.truthy (currentExpression w)); cbn.
  - repeat split. rewrite display_updates_app. cbn. lia.
  - repeat split.
Qed.

(** A [calculate] event that repeats the accepted expression ["3+4"]
    one millisecond after it was accepted: the sentence asks for the event
    to be discarded.  The script does not inject the expression again, but
    it goes on to [calculate()], and the calculation of ["3+4"] starts. *)
Lemma C1_counterexample : ~ every_result_event_is_deduplicated.
Proof.
  intros H.
  pose (w := handleVoicePayload
               (JObject (Payload.make (Some "result") None None None
                           (Some "append_expression") (Some "3+4") (Some 1%float)))
               1000 initial).
  pose (p := Payload.make (Some "result") None None None (Some "calculate")
                          (Some "3+4") (Some 1%float)).
  specialize (H p "3+4" 1001%Z w eq_refl (or_intror eq_refl) eq_refl).
  assert (Hs : sanitize "3+4" <> "") by (vm_compute; discriminate).
  destruct (H Hs) as [Hdiscard _].
  assert (Hdup : duplicate (sanitize "3+4") 1001 w) by (vm_compute; now split).
  destruct (Hdiscard Hdup) as (_ & _ & _ & _ & Htrace).
  vm_compute in Htrace. discriminate Htrace.
Qed.

Lemma calculation_append (p : Payload.t) (expression : string) :
  Payload.action p = Some "append_expression" -> calculation p expression = [].
Proof. intros Ha. unfold calculation. now rewrite Ha. Qed.

Lemma calculation_calculate (p : Payload.t) (w : World) :
  Payload.action p = Some "calculate" ->
  calculate w = set_trace (trace w ++ calculation p (currentExpression w)) w.
Proof.
  intros Ha. unfold calculation, calculate, emit. rewrite Ha.
  cbn [tag_is String.eqb Ascii.eqb Bool.eqb andb].
  destruct (Text.truthy (currentExpression w)); cbn [negb]; [reflexivity|].
  rewrite app_nil_r. now destruct w.
Qed.

(** C1, amended.  For a result event whose action is [append_expression]
    or [calculate] and whose expression sanitises to a text that is not
    empty.  When the text equals the last accepted one and fewer than 300
    milliseconds passed since, the expression is not injected: the host
    variables and the last accepted pair keep their values and the
    display is not redrawn.  When at least 300 milliseconds passed or the
    text differs, it becomes the host expression and the last accepted
    pair, with one redraw.  That is all an [append_expression] event asks
    of the browser.  A [calculate] event then runs [calculate()], in both
    cases, which starts the calculation of the host expression unless
    that expression is empty. *)
Theorem C1_dedup_of_append_and_calculate
  (p : Payload.t) (received : string) (now : Z) (w : World) :
  Payload.type p = Some "result" ->
  Payload.action p = Some "append_expression" \/
  Payload.action p = Some "calculate" ->
  Payload.expression p = Some received ->
  sanitize received <> "" ->
  let w' := handleVoicePayload (JObject p) now w in
  (duplicate (sanitize received) now w ->
   currentExpression w' = currentExpression w /\
   shouldResetOnNextInput w' = shouldResetOnNextInput w /\
   lastVoiceExpression w' = lastVoiceExpression w /\
   lastVoiceTimestamp w' = lastVoiceTimestamp w /\
   trace w' = trace w ++ calculation p (currentExpression w)) /\
  ((300 <= now - lastVoiceTimestamp w)%Z \/
   sanitize received <> lastVoiceExpression w ->
   accepted (sanitize received) now w' /\
   shouldResetOnNextInput w' = false /\
   trace w' =
     trace w ++ [UpdateDisplay (sanitize received)] ++
     calculation p (sanitize received)).
Proof.
  intros Ht Ha He Hs. cbv zeta.
  rewrite (handleVoicePayload_result p now w Ht).
  set (w0 := voiceUI_set "Listening…" "listening" "info" w).
  set (wi := injectVoiceExpression (Some received) (confidence_or_1 p) now w0).
  assert (Hinj :
    handleVoiceResult p now w0 =
    set_trace (trace wi ++ calculation p (currentExpression wi)) wi).
  { unfold handleVoiceResult. rewrite He. destruct Ha as [Ha | Ha].
    - rewrite (calculation_append p _ Ha), app_nil_r, Ha.
      cbn [tag_is String.eqb Ascii.eqb Bool.eqb]. fold wi. now destruct wi.
    - rewrite <- (calculation_calculate p wi Ha), Ha.
      cbn [tag_is String.eqb Ascii.eqb Bool.eqb present].
      assert (Text.truthy received = true) as ->; [|reflexivity].
      destruct received; [|reflexivity]. now elim Hs. }
  rewrite Hinj. split.
  - intros Hdup.
    assert (wi = w0) as ->.
    { exact (proj1 (injectVoiceExpression_usable received (confidence_or_1 p)
                      now w0 Hs) Hdup). }
    repeat split.
  - intros Hfresh.
    assert (Hnot : ~ duplicate (sanitize received) now w0).
    { intros [Hsame Hsoon]. cbn in Hsame, Hsoon.
      destruct Hfresh as [Hlate | Hdiff]; [lia | contradiction]. }
    destruct (injectVoiceExpression_fresh received now w0 Hs Hnot)
      as (w1 & Hw1 & Hcur & Hreset & Hlast & Hts & Htrace & _).
    assert (Hfields :
      currentExpression wi = sanitize received /\
      shouldResetOnNextInput wi = false /\
      lastVoiceExpression wi = sanitize received /\
      lastVoiceTimestamp wi = now /\
      trace wi = trace w ++ [UpdateDisplay (sanitize received)]).
    { unfold wi. rewrite Hw1.
      destruct (confidence_or_1 p <? low_confidence)%float; repeat split; assumption. }
    destruct Hfields as (Fc & Fr & Fl & Ft & Ftr).
    unfold accepted. cbn [currentExpression shouldResetOnNextInput
      lastVoiceExpression lastVoiceTimestamp trace set_trace].
    rewrite Fc.
    destruct wi; cbn in *. subst. repeat split. now rewrite <- app_assoc.
Qed.

Lemma C1_witness :
  let p := Payload.make (Some "result") None None None (Some "calculate")
                        (Some "7 - 2") (Some 1%float) in
  sanitize "7 - 2" <> "" /\
  accepted "7-2" 1000 (handleVoicePayload (JObject p) 1000 initial) /\
  trace (handleVoicePayload (JObject p) 1000 initial) =
  [UpdateDisplay "7-2"; Calculate "7-2"].
Proof.
  cbv zeta.
  assert (Hs : sanitize "7 - 2" <> "") by (vm_compute; discriminate).
  split; [exact Hs|].
  destruct (proj2 (C1_dedup_of_append_and_calculate
              (Payload.make (Some "result") None None None (Some "calculate")
                            (Some "7 - 2") (Some 1%float))
              "7 - 2" 1000 initial eq_refl (or_intror eq_refl) eq_refl Hs))
    as (Haccepted & _ & Htrace); [left; vm_compute; discriminate|].
  split; [exact Haccepted | exact Htrace].
Defined.

(** ** Dispatch *)

Lemma tag_is_true (tag : option string) (name : string) :
  tag_is tag name = true <-> tag = Some name.
Proof.
  destruct tag as [s|]; cbn [tag_is].
  - rewrite String.eqb_eq. split; congruence.
  - split; discriminate.
Qed.

Lemma tag_is_false (tag : option string) (name : string) :
  tag_is tag name = false <-> tag <> Some name.
Proof.
  rewrite <- tag_is_true. destruct (tag_is tag name); split; congruence.
Qed.

Lemma handleVoicePayload_unknown_type (p : Payload.t) (now : Z) (w : World) :
  ~ known_type (Payload.type p) ->
  handleVoicePayload (JObject p) now w = w.
Proof.
  intros Hk. unfold handleVoicePayload. cbn [falsy typeof properties orb negb].
  assert (tag_is (Payload.type p) "status" = false) as ->.
  { apply tag_is_false. intros E. apply Hk. now left. }
  assert (tag_is (Payload.type p) "result" = false) as ->.
  { apply tag_is_false. intros E. apply Hk. now right. }
  reflexivity.
Qed.

Lemma handleVoiceResult_unknown_action (p : Payload.t) (now : Z) (w : World) :
  ~ known_action (Payload.action p) ->
  handleVoiceResult p now w = w.
Proof.
  intros Hk. unfold handleVoiceResult, known_action in *.
  repeat match goal with
  | |- context [tag_is (Payload.action p) ?name] =>
      let E := fresh "E" in
      assert (tag_is (Payload.action p) name = false) as E
        by (apply tag_is_false; tauto);
      rewrite E; clear E
  end.
  reflexivity.
Qed.

(** An event of a type the script does not know: the sentence asks for
    a report of a malformed payload; the script lets the event pass
    without any. *)
Lemma C4_counterexample : ~ unknown_tags_are_rejected.
Proof.
  intros H.
  pose (p := Payload.make (Some "telemetry") None None None None None None).
  assert (Hu : unknown_tag p).
  { left. intros [E | E]; discriminate E. }
  destruct (H p 0%Z initial Hu) as (asked & Htrace & Hin).
  destruct asked as [|e asked]; [destruct Hin | discriminate Htrace].
Qed.

(** C4, amended.  An event whose type tag is unknown is ignored: the
    globals stay as they were and nothing is reported.  A result event
    whose action tag is unknown only reaffirms the listening status, which
    every result event does before its action is looked at; nothing is
    reported either. *)
Theorem C4_unknown_tags_are_ignored
  (p : Payload.t) (now : Z) (w : World) :
  unknown_tag p ->
  let w' := onmessage (Document (JObject p)) now w in
  w' = (if tag_is (Payload.type p) "result"
        then voiceUI_set "Listening…" "listening" "info" w
        else w) /\
  trace w' = trace w /\
  ~ reported_malformed w w'.
Proof.
  intros Hu. cbv zeta. cbn [onmessage].
  assert (Hw : handleVoicePayload (JObject p) now w =
               (if tag_is (Payload.type p) "result"
                then voiceUI_set "Listening…" "listening" "info" w
                else w)).
  { destruct Hu as [Hk | [Ht Hk]].
    - rewrite (handleVoicePayload_unknown_type p now w Hk).
      assert (tag_is (Payload.type p) "result" = false) as ->; [|reflexivity].
      apply tag_is_false. intros E. apply Hk. now right.
    - rewrite (handleVoicePayload_result p now w Ht).
      rewrite (handleVoiceResult_unknown_action p now _ Hk).
      apply tag_is_true in Ht. now rewrite Ht. }
  rewrite Hw.
  assert (Htrace : trace (if tag_is (Payload.type p) "result"
                          then voiceUI_set "Listening…" "listening" "info" w
                          else w) = trace w).
  { now destruct (tag_is (Payload.type p) "result"). }
  split; [reflexivity|]. split; [exact Htrace|].
  intros (asked & Happ & Hin). rewrite Htrace in Happ.
  destruct asked as [|e asked]; [destruct Hin|].
  apply (f_equal (@List.length Effect)) in Happ.
  rewrite length_app in Happ. cbn in Happ. lia.
Qed.

Lemma C4_witness :
  unknown_tag (Payload.make (Some "result") None None None (Some "undo") None None) /\
  onmessage
    (Document (JObject (Payload.make (Some "result") None None None
                          (Some "undo") None None))) 0 initial =
  voiceUI_set "Listening…" "listening" "info" initial.
Proof.
  assert (Hu : unknown_tag
                 (Payload.make (Some "result") None None None (Some "undo") None None)).
  { right. split; [reflexivity|].
    intros [E | [E | [E | [E | E]]]]; discriminate E. }
  split; [exact Hu|].
  exact (proj1 (C4_unknown_tags_are_ignored _ 0%Z initial Hu)).
Defined.

(** ** Messages that cannot be parsed *)

(** The body [42] is valid JSON and is not an object: the sentence asks
    for a log entry; the script returns from [handleVoicePayload] without
    one. *)
Lemma C6_counterexample : ~ unparseable_is_logged_and_dropped.
Proof.
  intros H.
  assert (Hu : unparseable (Document (JNumber 42))).
  { right. right. exists (JNumber 42). split; [reflexivity|].
    right. vm_compute. discriminate. }
  specialize (H (Document (JNumber 42)) 0%Z initial Hu).
  apply (f_equal trace) in H. vm_compute in H. discriminate H.
Qed.

(** C6, amended.  A message whose body is not empty and is not valid
    JSON is logged and dropped.  A message whose body is empty, or is
    valid JSON but not an object, is dropped without a log entry.  In
    every case the stream stays open: [voiceControl], the waiting
    continuations, the status line, the host variables and the last
    accepted pair are as before, and nothing but the log entry is asked
    of the browser. *)
Theorem C6_unparseable_message_is_dropped
  (data : MessageData) (now : Z) (w : World) :
  unparseable data ->
  let w' := onmessage data now w in
  w' = (match data with
        | InvalidJson => emit malformed_report w
        | NoData | Document _ => w
        end) /\
  voiceControl w' = voiceControl w /\
  pending w' = pending w /\
  voiceUI w' = voiceUI w /\
  currentExpression w' = currentExpression w /\
  shouldResetOnNextInput w' = shouldResetOnNextInput w /\
  lastVoiceExpression w' = lastVoiceExpression w /\
  lastVoiceTimestamp w' = lastVoiceTimestamp w /\
  fresh w' = fresh w.
Proof.
  intros [-> | [-> | (payload & -> & Hno)]]; cbv zeta; cbn [onmessage].
  - repeat split.
  - repeat split.
  - assert (handleVoicePayload payload now w = w) as ->; [|repeat split].
    unfold handleVoicePayload.
    destruct Hno as [Hf | Ht].
    + now rewrite Hf.
    + apply String.eqb_neq in Ht. rewrite Ht. cbn [negb].
      now rewrite orb_true_r.
Qed.

Lemma C6_witness :
  unparseable NoData /\
  onmessage NoData 0 initial = initial.
Proof.
  assert (Hu : unparseable NoData) by (left; reflexivity).
  split; [exact Hu|].
  exact (proj1 (C6_unparseable_message_is_dropped NoData 0%Z initial Hu)).
Defined.

(** ** Confidence *)

Lemma calculate_ask_to_repeat (w : World) :
  calculate (ask_to_repeat w) = ask_to_repeat (calculate w).
Proof.
  unfold calculate, ask_to_repeat, voiceUI_set. cbn.
  destruct (Text.truthy (currentExpression w)); reflexivity.
Qed.

Lemma injectVoiceExpression_confidence
  (expression : option string) (c_low c_high : float) (now : Z) (w : World) :
  (c_low <? low_confidence)%float = true ->
  (c_high <? low_confidence)%float = false ->
  let w_low := injectVoiceExpression expression c_low now w in
  let w_high := injectVoiceExpression expression c_high now w in
  voiceUI w_high = voiceUI w /\
  (w_low = w_high \/ w_low = ask_to_repeat w_high).
Proof.
  intros Hlow Hhigh. cbv zeta. unfold injectVoiceExpression.
  destruct expression as [received|]; [|now split; [|left]].
  destruct (Text.truthy received); cbn [negb]; [|now split; [|left]].
  destruct (Text.truthy (Text.delete_all outside_voice_class received));
    cbn [negb]; [|now split; [|left]].
  destruct (String.eqb _ _ && _); [now split; [|left]|].
  rewrite Hlow, Hhigh.
  split; [now destruct (shouldResetOnNextInput w) | now right].
Qed.

Lemma handleVoiceResult_confidence
  (p : Payload.t) (c_low c_high : float) (now : Z) (w : World) :
  (c_low <? low_confidence)%float = true ->
  (c_high <? low_confidence)%float = false ->
  let w_low := handleVoiceResult (with_confidence (Some c_low) p) now w in
  let w_high := handleVoiceResult (with_confidence (Some c_high) p) now w in
  w_low = w_high \/ (w_low = ask_to_repeat w_high /\ voiceUI w_high = voiceUI w).
Proof.
  intros Hlow Hhigh. cbv zeta. unfold handleVoiceResult, confidence_or_1.
  cbn [with_confidence Payload.action Payload.expression Payload.expression_confidence].
  pose proof (injectVoiceExpression_confidence (Payload.expression p)
                c_low c_high now w Hlow Hhigh) as [Hui Hinj].
  cbv zeta in Hui, Hinj.
  destruct (tag_is (Payload.action p) "append_expression").
  { destruct Hinj as [-> | ->]; [now left | now right]. }
  destruct (tag_is (Payload.action p) "calculate").
  { destruct (present (Payload.expression p)); [|now left].
    destruct Hinj as [-> | ->]; [now left|].
    right. split; [apply calculate_ask_to_repeat|].
    rewrite <- Hui. unfold calculate.
    now destruct (Text.truthy (currentExpression _)). }
  now left.
Qed.

Lemma calculate_voiceUI (w : World) : voiceUI (calculate w) = voiceUI w.
Proof. unfold calculate. now destruct (Text.truthy (currentExpression w)). Qed.

Lemma calculate_currentExpression (w : World) :
  currentExpression (calculate w) = currentExpression w.
Proof. unfold calculate. now destruct (Text.truthy (currentExpression w)). Qed.

(** An event that is applied, with a confidence below the threshold and
    with one that is not: the same expression is injected, and the low
    confidence puts the request to repeat on the status line. *)
Lemma applied_event_confidence
  (p : Payload.t) (received : string) (c_low c_high : float) (now : Z) (w : World) :
  (c_low <? low_confidence)%float = true ->
  (c_high <? low_confidence)%float = false ->
  Payload.type p = Some "result" ->
  Payload.action p = Some "append_expression" \/
  Payload.action p = Some "calculate" ->
  Payload.expression p = Some received ->
  sanitize received <> "" ->
  ~ duplicate (sanitize received) now w ->
  let w_low := handleVoicePayload (JObject (with_confidence (Some c_low) p)) now w in
  let w_high := handleVoicePayload (JObject (with_confidence (Some c_high) p)) now w in
  w_low = ask_to_repeat w_high /\
  currentExpression w_low = sanitize received /\
  currentExpression w_high = sanitize received /\
  voiceUI w_low = asking_to_repeat /\
  voiceUI w_high = reaffirmed_listening.
Proof.
  intros Hlow Hhigh Ht Ha He Hs Hfresh. cbv zeta.
  rewrite !handleVoicePayload_result by exact Ht.
  set (w0 := voiceUI_set "Listening…" "listening" "info" w).
  destruct (injectVoiceExpression_fresh received now w0 Hs Hfresh)
    as (w1 & Hw1 & Hcur & _ & _ & _ & _ & Hui & _).
  assert (Hr : Text.truthy received = true).
  { destruct received; [|reflexivity]. now elim Hs. }
  unfold handleVoiceResult, confidence_or_1.
  cbn [with_confidence Payload.action Payload.expression Payload.expression_confidence].
  rewrite He, !Hw1, Hlow, Hhigh. fold (ask_to_repeat w1).
  destruct Ha as [-> | ->];
    cbn [tag_is String.eqb Ascii.eqb Bool.eqb present]; rewrite ?Hr.
  - repeat split; [exact Hcur | exact Hcur | exact Hui].
  - rewrite calculate_ask_to_repeat.
    split; [reflexivity|].
    change (currentExpression (ask_to_repeat (calculate w1)))
      with (currentExpression (calculate w1)).
    rewrite calculate_currentExpression, calculate_voiceUI.
    repeat split; [exact Hcur | exact Hcur | exact Hui].
Qed.

(** C5.  Take a payload and give it a confidence below the threshold and
    one that is not below it.  The two events leave the same world, up to
    the request to repeat on the status line: the host expression, the
    reset flag, the last accepted pair, [voiceControl], the waiting
    continuations and everything asked of the browser are the same, and
    the status stays [listening].  When the event is applied, that is
    when it is an [append_expression] or [calculate] result event whose
    expression sanitises to a text that is not empty and repeats nothing,
    the same sanitised expression becomes the host expression at either
    confidence, and the status line carries the request to repeat at the
    low confidence and [Listening…] at the other. *)
Theorem C5_low_confidence_only_warns
  (p : Payload.t) (c_low c_high : float) (now : Z) (w : World) :
  (c_low <? low_confidence)%float = true ->
  (c_high <? low_confidence)%float = false ->
  let w_low := handleVoicePayload (JObject (with_confidence (Some c_low) p)) now w in
  let w_high := handleVoicePayload (JObject (with_confidence (Some c_high) p)) now w in
  (w_low = w_high \/ w_low = ask_to_repeat w_high) /\
  currentExpression w_low = currentExpression w_high /\
  shouldResetOnNextInput w_low = shouldResetOnNextInput w_high /\
  lastVoiceExpression w_low = lastVoiceExpression w_high /\
  lastVoiceTimestamp w_low = lastVoiceTimestamp w_high /\
  voiceControl w_low = voiceControl w_high /\
  pending w_low = pending w_high /\
  trace w_low = trace w_high /\
  VoiceUI.state (voiceUI w_low) = VoiceUI.state (voiceUI w_high) /\
  (forall received,
      Payload.type p = Some "result" ->
      Payload.action p = Some "append_expression" \/
      Payload.action p = Some "calculate" ->
      Payload.expression p = Some received ->
      sanitize received <> "" ->
      ~ duplicate (sanitize received) now w ->
      w_low = ask_to_repeat w_high /\
      currentExpression w_low = sanitize received /\
      currentExpression w_high = sanitize received /\
      voiceUI w_low = asking_to_repeat /\
      voiceUI w_high = reaffirmed_listening).
Proof.
  intros Hlow Hhigh. cbv zeta.
  assert (H :
    handleVoicePayload (JObject (with_confidence (Some c_low) p)) now w =
    handleVoicePayload (JObject (with_confidence (Some c_high) p)) now w \/
    (handleVoicePayload (JObject (with_confidence (Some c_low) p)) now w =
     ask_to_repeat
       (handleVoicePayload (JObject (with_confidence (Some c_high) p)) now w) /\
     VoiceUI.state
       (voiceUI (handleVoicePayload (JObject (with_confidence (Some c_high) p)) now w))
     = "listening")).
  { unfold handleVoicePayload.
    cbn [falsy typeof properties orb negb String.eqb Ascii.eqb Bool.eqb
         with_confidence Payload.type Payload.state Payload.message Payload.level].
    destruct (tag_is (Payload.type p) "status"); [now left|].
    destruct (tag_is (Payload.type p) "result"); [|now left].
    destruct (handleVoiceResult_confidence p c_low c_high now
                (voiceUI_set "Listening…" "listening" "info" w) Hlow Hhigh)
      as [E | [E Hui]]; cbv zeta in *.
    - now left.
    - right. split; [exact E|]. now rewrite Hui. }
  set (w_low := handleVoicePayload (JObject (with_confidence (Some c_low) p)) now w) in *.
  set (w_high := handleVoicePayload (JObject (with_confidence (Some c_high) p)) now w) in *.
  assert (Happlied : forall received,
    Payload.type p = Some "result" ->
    Payload.action p = Some "append_expression" \/
    Payload.action p = Some "calculate" ->
    Payload.expression p = Some received ->
    sanitize received <> "" ->
    ~ duplicate (sanitize received) now w ->
    w_low = ask_to_repeat w_high /\
    currentExpression w_low = sanitize received /\
    currentExpression w_high = sanitize received /\
    voiceUI w_low = asking_to_repeat /\
    voiceUI w_high = reaffirmed_listening).
  { intros received Ht Ha He Hs Hfresh.
    exact (applied_event_confidence p received c_low c_high now w
             Hlow Hhigh Ht Ha He Hs Hfresh). }
  clearbody w_low w_high.
  destruct H as [-> | [-> Hstate]].
  - split; [now left|]. do 8 (split; [reflexivity|]). exact Happlied.
  - split; [now right|]. do 7 (split; [reflexivity|]).
    split; [now rewrite Hstate|]. exact Happlied.
Qed.

Lemma C5_witness :
  (0.25 <? low_confidence)%float = true /\
  (0.5 <? low_confidence)%float = false /\
  currentExpression
    (handleVoicePayload
       (JObject (Payload.make (Some "result") None None None
                   (Some "append_expression") (Some "3+4") (Some 0.25%float)))
       1000 initial) = "3+4" /\
  voiceUI
    (handleVoicePayload
       (JObject (Payload.make (Some "result") None None None
                   (Some "append_expression") (Some "3+4") (Some 0.25%float)))
       1000 initial) = asking_to_repeat.
Proof.
  split; [reflexivity|]. split; [reflexivity|].
  pose proof (C5_low_confidence_only_warns
                (Payload.make (Some "result") None None None
                   (Some "append_expression") (Some "3+4") None)
                0.25%float 0.5%float 1000%Z initial eq_refl eq_refl) as H.
  cbv zeta in H. destruct H as (_ & _ & _ & _ & _ & _ & _ & _ & _ & Happlied).
  assert (Hs : sanitize "3+4" <> "") by (vm_compute; discriminate).
  assert (Hfresh : ~ duplicate (sanitize "3+4") 1000 initial).
  { intros [E _]. vm_compute in E. discriminate E. }
  destruct (Happlied "3+4" eq_refl (or_introl eq_refl) eq_refl Hs Hfresh)
    as (_ & Hcur & _ & Hui & _).
  split; [exact Hcur | exact Hui].
Defined.

(** ** Start and stop *)

(** Case analysis on the stream and the timer a world holds. *)
Ltac open_world w :=
  destruct w as [? ? ? ? ? [? [?|] [?|] ?] ? ? ?]; cbn in *.

(** C7.  [start()] on an active consumer displays the listening status
    and returns: it starts no fetch, opens no stream, sets no timer and
    leaves [voiceControl], the waiting continuations and the host
    variables as they were. *)
Theorem C7_start_while_active_reaffirms_listening (w : World) :
  VoiceControl.active (voiceControl w) = true ->
  let w' := start w in
  step CallStart w = Some w' /\
  w' = voiceUI_set "Listening…" "listening" "info" w /\
  voiceUI w' = VoiceUI.make "listening" "Listening…" "Listening…" /\
  voiceControl w' = voiceControl w /\
  pending w' = pending w /\
  trace w' = trace w /\
  fresh w' = fresh w /\
  currentExpression w' = currentExpression w /\
  shouldResetOnNextInput w' = shouldResetOnNextInput w.
Proof.
  intros Hactive. cbv zeta. cbn [step]. unfold start. rewrite Hactive.
  repeat split.
Qed.

Lemma C7_witness :
  VoiceControl.active
    (voiceControl (start_resumed (Status true) (start initial))) = true /\
  trace (start (start_resumed (Status true) (start initial))) =
  [Fetch "/voice/start"; NewEventSource 0].
Proof.
  split; [reflexivity|].
  pose proof (C7_start_while_active_reaffirms_listening
                (start_resumed (Status true) (start initial)) eq_refl) as H.
  cbv zeta in H. destruct H as (_ & _ & _ & _ & _ & Htrace & _).
  etransitivity; [exact Htrace|]. reflexivity.
Defined.

Lemma take_pending_last (k : Continuation) (ks : list Continuation) :
  exists rest, take_pending k (ks ++ [k]) = Some rest /\
               Permutation.Permutation (k :: rest) (ks ++ [k]).
Proof.
  assert (Hrefl : continuation_eqb k k = true).
  { destruct k as [|[]|]; reflexivity. }
  induction ks as [|k' ks (rest & IH & Hperm)]; cbn [take_pending app].
  - rewrite Hrefl. exists []. split; [reflexivity | apply Permutation.Permutation_refl].
  - destruct (continuation_eqb k k') eqn:E.
    + exists (ks ++ [k]). split; [reflexivity|].
      assert (k = k') as <-.
      { destruct k as [|[]|], k' as [|[]|]; cbn in E; congruence. }
      apply Permutation.Permutation_refl.
    + rewrite IH. cbn [option_map]. exists (k' :: rest). split; [reflexivity|].
      eapply Permutation.perm_trans; [apply Permutation.perm_swap|].
      now apply Permutation.perm_skip.
Qed.

(** A call of [stop] followed by the settling of its fetch. *)
Lemma stop_completes (w : World) (silent : bool) (r : Response) :
  exists rest,
    Permutation.Permutation (AfterStopFetch silent :: rest)
      (pending w ++ [AfterStopFetch silent]) /\
    run [CallStop silent; Settled (AfterStopFetch silent) r] w =
    Some (stop_resumed silent r (set_pending rest (stop silent w))).
Proof.
  destruct (take_pending_last (AfterStopFetch silent) (pending w))
    as (rest & Htake & Hperm).
  exists rest. split; [exact Hperm|].
  cbn [run step].
  assert (pending (stop silent w) = pending w ++ [AfterStopFetch silent])%list as ->.
  { now open_world w. }
  rewrite Htake. reflexivity.
Qed.

Lemma stop_without_stream (w : World) (silent : bool) :
  VoiceControl.eventSource (voiceControl w) = None ->
  VoiceControl.reconnectTimer (voiceControl w) = None ->
  stop silent w = await (AfterStopFetch silent) (emit (Fetch "/voice/stop") w).
Proof.
  intros Hs Ht. unfold stop. cbv zeta. rewrite Ht. cbv iota. now rewrite Hs.
Qed.

(** When the fetch of [stop] settles before any other task runs, the
    call leaves the consumer idle from any world: inactive, without an
    event stream, without a reconnect timer, with an attempt counter of
    zero, and with the status line on [Mic off] unless the call was
    silent.  A second call from there leaves the same [voiceControl], the
    same status line, the same host variables and, up to order, the same
    waiting continuations; all it asks of the browser is one more fetch
    of [/voice/stop] and, if that fetch rejects, the warning about it. *)
Lemma stop_then_settled_is_idle (w : World) (silent : bool) (r r' : Response) :
  exists w1 w2,
    run [CallStop silent; Settled (AfterStopFetch silent) r] w = Some w1 /\
    voiceControl w1 = VoiceControl.make false None None 0 /\
    (silent = false -> voiceUI w1 = VoiceUI.make "idle" "Mic off" "Mic off") /\
    run [CallStop silent; Settled (AfterStopFetch silent) r'] w1 = Some w2 /\
    voiceControl w2 = voiceControl w1 /\
    voiceUI w2 = voiceUI w1 /\
    currentExpression w2 = currentExpression w1 /\
    shouldResetOnNextInput w2 = shouldResetOnNextInput w1 /\
    lastVoiceExpression w2 = lastVoiceExpression w1 /\
    lastVoiceTimestamp w2 = lastVoiceTimestamp w1 /\
    fresh w2 = fresh w1 /\
    Permutation.Permutation (pending w2) (pending w1) /\
    trace w2 =
      (trace w1 ++ Fetch "/voice/stop" ::
         match r' with
         | Rejected => [Console "warn" "Voice service stop warning"]
         | Status _ => []
         end)%list.
Proof.
  destruct (stop_completes w silent r) as (rest & _ & Hrun).
  set (w1 := stop_resumed silent r (set_pending rest (stop silent w))) in *.
  destruct (stop_completes w1 silent r') as (rest' & Hperm & Hrun').
  exists w1, (stop_resumed silent r' (set_pending rest' (stop silent w1))).
  assert (Hc : voiceControl w1 = VoiceControl.make false None None 0).
  { unfold w1. open_world w; now destruct r, silent. }
  assert (Hui : silent = false -> voiceUI w1 = VoiceUI.make "idle" "Mic off" "Mic off").
  { intros ->. unfold w1, stop_resumed. cbn [negb]. now destruct r. }
  split; [exact Hrun|]. split; [exact Hc|]. split; [exact Hui|].
  split; [exact Hrun'|].
  assert (Hstop : stop silent w1 =
                  await (AfterStopFetch silent) (emit (Fetch "/voice/stop") w1)).
  { apply stop_without_stream; now rewrite Hc. }
  assert (Hpending : pending w1 = rest).
  { unfold w1, stop_resumed. now destruct r, silent. }
  rewrite Hstop. clearbody w1.
  assert (Hperm' : Permutation.Permutation rest' (pending w1)).
  { apply Permutation.Permutation_cons_inv with (a := AfterStopFetch silent).
    eapply Permutation.perm_trans; [exact Hperm|].
    rewrite Hpending.
    apply Permutation.Permutation_sym, Permutation.Permutation_cons_append. }
  destruct silent.
  - unfold stop_resumed. cbn [negb].
    destruct r'; cbn; rewrite ?Hc; repeat split; try exact Hperm';
      now rewrite <- app_assoc.
  - specialize (Hui eq_refl). unfold stop_resumed. cbn [negb].
    destruct r'; cbn; rewrite ?Hc, ?Hui; repeat split; try exact Hperm';
      now rewrite <- app_assoc.
Qed.

(** C8.  [stop()] does not take the consumer to idle when a reconnect
    has its fetch in flight.  The page starts listening, its stream
    fails, the reconnect timer fires and its callback waits for the fetch
    of [/voice/start]; then [stop()] is called.  Whether the fetch of the
    reconnect succeeds before the fetch of [/voice/stop] settles or after
    it, the callback opens a stream.  In both orders [stop()] has run to
    its end, no task is left and the consumer is inactive with its
    counter at zero; but it holds the stream that the callback opened and
    that stream is open.  In the first order the status line is on
    [Mic off], in the second on [Listening…]; the message the stream
    delivers next is handled.  When the fetch of the reconnect fails
    instead, [stop()] ends with the timer of a new attempt set. *)
Theorem C8_stop_leaves_a_stream_open :
  exists w w1 w2 w3 w4,
    run [CallStart; Settled AfterStartFetch (Status true); StreamError;
         TimerFired] initial = Some w /\
    restart_in_flight w /\
    run [CallStop false; Settled AfterRestartFetch (Status true);
         Settled (AfterStopFetch false) (Status true)] w = Some w1 /\
    run [CallStop false; Settled (AfterStopFetch false) (Status true);
         Settled AfterRestartFetch (Status true)] w = Some w2 /\
    pending w1 = [] /\
    pending w2 = [] /\
    voiceControl w1 = VoiceControl.make false (Some 2) None 0 /\
    voiceControl w2 = VoiceControl.make false (Some 2) None 0 /\
    open_streams (trace w1) = [2] /\
    open_streams (trace w2) = [2] /\
    voiceUI w1 = VoiceUI.make "idle" "Mic off" "Mic off" /\
    voiceUI w2 = reaffirmed_listening /\
    run [StreamMessage
           (Document (JObject (Payload.make (Some "result") None None None
                                 (Some "append_expression") (Some "1+2") None)))
           5000] w1 = Some w3 /\
    currentExpression w3 = "1+2" /\
    run [CallStop false; Settled AfterRestartFetch Rejected;
         Settled (AfterStopFetch false) (Status true)] w = Some w4 /\
    voiceControl w4 = VoiceControl.make false None (Some 2) 0.
Proof.
  eexists. eexists. eexists. eexists. eexists.
  split; [vm_compute; reflexivity|].
  split; [repeat split|].
  split; [vm_compute; reflexivity|].
  split; [vm_compute; reflexivity|].
  do 8 (split; [reflexivity|]).
  split; [vm_compute; reflexivity|].
  split; [reflexivity|].
  split; [vm_compute; reflexivity|].
  reflexivity.
Qed.

(** ** Reconnection *)

Lemma fetches_app (path : string) (t u : list Effect) :
  fetches path (t ++ u) = fetches path t + fetches path u.
Proof.
  induction t as [|e t IH]; [reflexivity|].
  destruct e; cbn [fetches app]; rewrite IH; lia.
Qed.

Lemma take_pending_stops (k : Continuation) (ks rest : list Continuation) :
  forallb is_stop_continuation ks = true ->
  take_pending k ks = Some rest ->
  is_stop_continuation k = true /\ forallb is_stop_continuation rest = true.
Proof.
  revert rest. induction ks as [|k' ks IH]; intros rest Hall Htake; [discriminate|].
  cbn [forallb] in Hall. apply andb_true_iff in Hall as [Hk' Hks].
  cbn [take_pending] in Htake.
  destruct (continuation_eqb k k') eqn:E.
  - injection Htake as <-. split; [|exact Hks].
    destruct k as [|[]|], k' as [|[]|]; cbn in *; congruence.
  - destruct (take_pending k ks) as [rest'|]; [|discriminate].
    injection Htake as <-.
    destruct (IH rest' Hks eq_refl) as [Hk Hrest].
    split; [exact Hk|]. cbn [forallb]. now rewrite Hk', Hrest.
Qed.

(** Once the consumer has given up, an event that does not call [start]
    keeps it so and fetches [/voice/start] no more. *)
Lemma given_up_step (e : Event) (w w' : World) :
  given_up w ->
  calls_start e = false ->
  step e w = Some w' ->
  given_up w' /\
  fetches "/voice/start" (trace w') = fetches "/voice/start" (trace w).
Proof.
  intros (Hs & Ht & Hp) He Hstep.
  destruct e; try discriminate He; cbn [step] in Hstep.
  - (* stop *)
    injection Hstep as <-. rewrite (stop_without_stream w silent Hs Ht).
    unfold given_up. cbn. rewrite Hs, Ht, forallb_app, Hp, fetches_app.
    cbn. repeat split. lia.
  - (* a fetch settles *)
    destruct (take_pending k (pending w)) as [rest|] eqn:Htake; [|discriminate].
    injection Hstep as <-.
    destruct (take_pending_stops k (pending w) rest Hp Htake) as [Hk Hrest].
    destruct k as [|silent|]; try discriminate Hk. cbn [resume].
    unfold given_up, stop_resumed.
    destruct r, silent; cbn; rewrite ?fetches_app; cbn;
      repeat split; first [assumption | lia].
  - rewrite Hs in Hstep. discriminate.
  - rewrite Hs in Hstep. discriminate.
  - rewrite Hs in Hstep. discriminate.
  - rewrite Ht in Hstep. discriminate.
Qed.

Lemma given_up_run (events : list Event) (w w' : World) :
  given_up w ->
  existsb calls_start events = false ->
  run events w = Some w' ->
  given_up w' /\
  fetches "/voice/start" (trace w') = fetches "/voice/start" (trace w).
Proof.
  intros Hg. revert w Hg.
  induction events as [|e events IH]; intros w Hg Hno Hrun.
  - injection Hrun as <-. now split.
  - cbn [existsb] in Hno. apply orb_false_iff in Hno as [He Hrest].
    cbn [run] in Hrun. destruct (step e w) as [w1|] eqn:Hstep; [|discriminate].
    destruct (given_up_step e w w1 Hg He Hstep) as [Hg1 Hf1].
    destruct (IH w1 Hg1 Hrest Hrun) as [Hg' Hf'].
    split; [exact Hg'|]. now rewrite Hf'.
Qed.

Lemma run_app (a b : list Event) (w : World) :
  run (a ++ b) w =
  match run a w with
  | Some w' => run b w'
  | None => None
  end.
Proof.
  revert w. induction a as [|e a IH]; intros w; [reflexivity|].
  cbn [run app]. destruct (step e w); [apply IH | reflexivity].
Qed.

Lemma failed_response (r : Response) :
  succeeded r = false -> r = Rejected \/ r = Status false.
Proof. destruct r as [|[]]; [now left | discriminate | now right]. Qed.

Lemma failed_cases (r : Response) :
  failed r = true -> r = Rejected \/ r = Status false.
Proof. destruct r as [|[]]; [now left | discriminate | now right]. Qed.

(** A fetch of [/voice/start] that settles is found behind the fetches
    of [/voice/stop] that wait with it. *)
Lemma take_pending_after_stops (k : Continuation) (ks : list Continuation) :
  forallb is_stop_continuation ks = true ->
  is_stop_continuation k = false ->
  take_pending k (ks ++ [k]) = Some ks.
Proof.
  intros Hks Hk.
  assert (Hrefl : continuation_eqb k k = true).
  { destruct k as [|[]|]; reflexivity. }
  induction ks as [|k' ks IH]; cbn [take_pending app]; [now rewrite Hrefl|].
  cbn [forallb] in Hks. apply andb_true_iff in Hks as [Hk' Hks].
  assert (continuation_eqb k k' = false) as ->.
  { destruct k as [|?|], k' as [|?|]; cbn in *; congruence. }
  now rewrite (IH Hks).
Qed.

(** One reconnect attempt, as a run of the event loop. *)
Lemma attempt_runs (r : Response) (w : World) :
  is_some (VoiceControl.reconnectTimer (voiceControl w)) = true ->
  forallb is_stop_continuation (pending w) = true ->
  run (attempt r) w =
  Some (reconnect_resumed r (set_pending (pending w) (reconnect_fired w))).
Proof.
  intros Htimer Hpending. unfold attempt. cbn [run step]. rewrite Htimer.
  assert (pending (reconnect_fired w) = pending w ++ [AfterRestartFetch]) as ->
    by now destruct w.
  now rewrite (take_pending_after_stops AfterRestartFetch (pending w) Hpending).
Qed.

(** The stream of a listening consumer fails below the cap: an attempt is
    counted and its timer set. *)
Lemma stream_error_schedules (n : nat) (w : World) :
  listening w ->
  VoiceControl.reconnectAttempts (voiceControl w) = n ->
  n < 4 ->
  exists w1,
    step StreamError w = Some w1 /\
    retrying (S n) w1 /\
    fetches "/voice/start" (trace w1) = fetches "/voice/start" (trace w) /\
    fetches "/voice/stop" (trace w1) = fetches "/voice/stop" (trace w).
Proof.
  intros (Hactive & Hstream & Htimer & Hpending) Hcount Hn.
  destruct w as [cur reset lastE lastT ui [act [source|] timer count] pend next tr];
    cbn in Hactive, Hstream, Htimer, Hcount, Hpending; [|discriminate Hstream].
  subst act timer count.
  destruct n as [|[|[|[|n]]]]; [| | | |lia];
    (eexists; split; [reflexivity|];
     split; [repeat split; exact Hpending|];
     cbn; rewrite !fetches_app; cbn; lia).
Qed.

(** The stream of a listening consumer fails at the cap: the consumer
    gives up at once. *)
Lemma stream_error_gives_up (w : World) :
  listening w ->
  VoiceControl.reconnectAttempts (voiceControl w) = 4 ->
  exists w',
    step StreamError w = Some w' /\
    VoiceUI.state (voiceUI w') = "error" /\
    VoiceUI.message (voiceUI w') = "Voice connection lost" /\
    fetches "/voice/start" (trace w') = fetches "/voice/start" (trace w) /\
    fetches "/voice/stop" (trace w') = fetches "/voice/stop" (trace w) + 1 /\
    given_up w' /\
    pending w' = pending w ++ [AfterStopFetch true].
Proof.
  intros (Hactive & Hstream & Htimer & Hpending) Hcount.
  destruct w as [cur reset lastE lastT ui [act [source|] timer count] pend next tr];
    cbn in Hactive, Hstream, Htimer, Hcount, Hpending; [|discriminate Hstream].
  subst act timer count.
  eexists. split; [reflexivity|].
  split; [reflexivity|]. split; [reflexivity|].
  split; [cbn; rewrite !fetches_app; cbn; lia|].
  split; [cbn; rewrite !fetches_app; cbn; lia|].
  split; [|reflexivity].
  split; [reflexivity|]. split; [reflexivity|].
  cbn. rewrite forallb_app, Hpending. reflexivity.
Qed.

(** A failed attempt below the cap schedules the next one. *)
Lemma failed_attempt_schedules (n : nat) (r : Response) (w : World) :
  retrying n w -> n < 4 -> failed r = true ->
  exists w',
    run (attempt r) w = Some w' /\
    retrying (S n) w' /\
    fetches "/voice/start" (trace w') = fetches "/voice/start" (trace w) + 1 /\
    fetches "/voice/stop" (trace w') = fetches "/voice/stop" (trace w) /\
    pending w' = pending w.
Proof.
  intros (Hactive & Hstream & Htimer & Hcount & Hpending) Hn Hr.
  rewrite (attempt_runs r w Htimer Hpending).
  destruct w as [cur reset lastE lastT ui [act source [timer|] count] pend next tr];
    cbn in Hactive, Hstream, Htimer, Hcount, Hpending; [|discriminate Htimer].
  subst act source count.
  destruct n as [|[|[|[|n]]]]; [| | | |lia];
    destruct (failed_cases r Hr) as [-> | ->];
    (eexists; split; [reflexivity|];
     split; [repeat split; exact Hpending|];
     split; [cbn; rewrite !fetches_app; cbn; lia|];
     split; [cbn; rewrite !fetches_app; cbn; lia | reflexivity]).
Qed.

(** A failed attempt at the cap gives up. *)
Lemma failed_attempt_gives_up (r : Response) (w : World) :
  retrying 4 w -> failed r = true ->
  exists w',
    run (attempt r) w = Some w' /\
    VoiceUI.state (voiceUI w') = "error" /\
    VoiceUI.message (voiceUI w') = "Voice connection lost" /\
    fetches "/voice/start" (trace w') = fetches "/voice/start" (trace w) + 1 /\
    fetches "/voice/stop" (trace w') = fetches "/voice/stop" (trace w) + 1 /\
    given_up w' /\
    pending w' = pending w ++ [AfterStopFetch true].
Proof.
  intros (Hactive & Hstream & Htimer & Hcount & Hpending) Hr.
  rewrite (attempt_runs r w Htimer Hpending).
  destruct w as [cur reset lastE lastT ui [act source [timer|] count] pend next tr];
    cbn in Hactive, Hstream, Htimer, Hcount, Hpending; [|discriminate Htimer].
  subst act source count.
  destruct (failed_cases r Hr) as [-> | ->];
    (eexists; split; [reflexivity|];
     split; [reflexivity|]; split; [reflexivity|];
     split; [cbn; rewrite !fetches_app; cbn; lia|];
     split; [cbn; rewrite !fetches_app; cbn; lia|];
     split; [|reflexivity];
     split; [reflexivity|]; split; [reflexivity|];
     cbn; rewrite forallb_app, Hpending; reflexivity).
Qed.

(** Failed attempts that stay within the cap: each schedules the next. *)
Lemma failed_attempts_schedule (failures : list Response) :
  forall (m : nat) (w : World),
    retrying m w ->
    forallb failed failures = true ->
    m + length failures <= 4 ->
    exists w',
      run (flat_map attempt failures) w = Some w' /\
      retrying (m + length failures) w' /\
      fetches "/voice/start" (trace w') =
        fetches "/voice/start" (trace w) + length failures /\
      fetches "/voice/stop" (trace w') = fetches "/voice/stop" (trace w).
Proof.
  induction failures as [|r failures IH]; intros m w Hretry Hall Hm.
  - exists w. cbn [flat_map run length]. rewrite !Nat.add_0_r.
    split; [reflexivity|]. split; [exact Hretry|]. split; reflexivity.
  - cbn [forallb] in Hall. apply andb_true_iff in Hall as [Hr Hall].
    cbn [length] in Hm.
    destruct (failed_attempt_schedules m r w Hretry ltac:(lia) Hr)
      as (w1 & Hrun1 & Hretry1 & Hs1 & Hp1 & _).
    destruct (IH (S m) w1 Hretry1 Hall ltac:(lia)) as (w' & Hrun & Hretry' & Hs & Hp).
    exists w'. cbn [flat_map length]. rewrite run_app, Hrun1.
    split; [exact Hrun|].
    replace (m + S (length failures)) with (S m + length failures) by lia.
    split; [exact Hretry'|]. split; lia.
Qed.

(** Failed attempts that use up the cap: the last one gives up. *)
Lemma failed_attempts_give_up (failures : list Response) :
  forall (m : nat) (w : World),
    retrying m w ->
    forallb failed failures = true ->
    m + length failures = 5 ->
    m <= 4 ->
    exists w',
      run (flat_map attempt failures) w = Some w' /\
      VoiceUI.state (voiceUI w') = "error" /\
      VoiceUI.message (voiceUI w') = "Voice connection lost" /\
      fetches "/voice/start" (trace w') =
        fetches "/voice/start" (trace w) + length failures /\
      fetches "/voice/stop" (trace w') = fetches "/voice/stop" (trace w) + 1 /\
      given_up w' /\
      pending w' = pending w ++ [AfterStopFetch true].
Proof.
  induction failures as [|r failures IH]; intros m w Hretry Hall Hm Hcap.
  - cbn [length] in Hm. lia.
  - cbn [forallb] in Hall. apply andb_true_iff in Hall as [Hr Hall].
    cbn [length] in Hm. cbn [flat_map length]. rewrite run_app.
    destruct (Nat.eq_dec m 4) as [-> | Hbelow].
    + destruct failures as [|? ?]; [|cbn [length] in Hm; lia].
      destruct (failed_attempt_gives_up r w Hretry Hr)
        as (w' & Hrun & Hrest).
      exists w'. rewrite Hrun. split; [reflexivity | exact Hrest].
    + destruct (failed_attempt_schedules m r w Hretry ltac:(lia) Hr)
        as (w1 & Hrun1 & Hretry1 & Hs1 & Hp1 & Hpend1).
      destruct (IH (S m) w1 Hretry1 Hall ltac:(lia) ltac:(lia))
        as (w' & Hrun & Hstate & Hmessage & Hs & Hp & Hgiven & Hpend).
      exists w'. rewrite Hrun1.
      split; [exact Hrun|]. split; [exact Hstate|]. split; [exact Hmessage|].
      split; [lia|]. split; [lia|]. split; [exact Hgiven|].
      now rewrite Hpend, Hpend1.
Qed.

(** The page starts listening, its stream fails, the reconnect succeeds:
    the consumer listens again with one attempt counted.  Its stream
    fails again and three reconnect attempts fail: the consumer has given
    up, after three consecutive failures and not four. *)
Lemma C2_counterexample : ~ gives_up_after_exactly_four_failures.
Proof.
  intros H.
  destruct (run [CallStart; Settled AfterStartFetch (Status true); StreamError;
                 TimerFired; Settled AfterRestartFetch (Status true)] initial)
    as [w|] eqn:Hw; [|vm_compute in Hw; discriminate Hw].
  destruct (run (StreamError :: flat_map attempt [Rejected; Rejected; Rejected]) w)
    as [w'|] eqn:Hw'.
  2:{ vm_compute in Hw. injection Hw as <-. vm_compute in Hw'. discriminate Hw'. }
  assert (Hreach : reachable w) by (eexists; exact Hw).
  assert (Hlisten : listening w).
  { vm_compute in Hw. injection Hw as <-. repeat split. }
  assert (Hterminal : terminal_error w').
  { vm_compute in Hw. injection Hw as <-.
    vm_compute in Hw'. injection Hw' as <-. repeat split. }
  pose proof (proj1 (H w w' [Rejected; Rejected; Rejected] Hreach Hlisten
                       eq_refl Hw') Hterminal) as Hfour.
  discriminate Hfour.
Qed.

(** C2.  The script gives up when the attempts counted since [start()]
    or [stop()] last reset the counter are four, successful ones
    included; that is after four consecutive failures only when no
    attempt was counted before.  Take a listening consumer: active, its
    stream open, no timer set, no fetch of [/voice/start] in flight, with
    [n] attempts counted.  Its stream fails and the reconnect attempts
    that follow all fail.  While attempts counted and failed together are
    fewer than four, the consumer is still active and the timer of the
    next attempt is set.  When they are four, the status becomes [error]
    with the message [Voice connection lost], every attempt has fetched
    [/voice/start] once, [/voice/stop] is now fetched once, and no stream
    and no timer are left.  From then on no run of events fetches
    [/voice/start] unless it calls [start()], directly or through
    [toggle()].  When the fetch of [/voice/stop] settles the consumer is
    inactive with its counter back at zero, the status still [error]. *)
Theorem C2_reconnect_gives_up_at_four_attempts
  (w : World) (n : nat) (failures : list Response) (rs : Response) :
  listening w ->
  VoiceControl.reconnectAttempts (voiceControl w) = n ->
  forallb failed failures = true ->
  (n + length failures < 4 ->
   exists w',
     run (StreamError :: flat_map attempt failures) w = Some w' /\
     retrying (S (n + length failures)) w' /\
     fetches "/voice/start" (trace w') =
       fetches "/voice/start" (trace w) + length failures /\
     fetches "/voice/stop" (trace w') = fetches "/voice/stop" (trace w)) /\
  (n + length failures = 4 ->
   exists w4 w5,
     run (StreamError :: flat_map attempt failures) w = Some w4 /\
     VoiceUI.state (voiceUI w4) = "error" /\
     VoiceUI.message (voiceUI w4) = "Voice connection lost" /\
     fetches "/voice/start" (trace w4) =
       fetches "/voice/start" (trace w) + length failures /\
     fetches "/voice/stop" (trace w4) = fetches "/voice/stop" (trace w) + 1 /\
     given_up w4 /\
     (forall events w',
         existsb calls_start events = false ->
         run events w4 = Some w' ->
         fetches "/voice/start" (trace w') = fetches "/voice/start" (trace w4)) /\
     run [Settled (AfterStopFetch true) rs] w4 = Some w5 /\
     voiceControl w5 = VoiceControl.make false None None 0 /\
     VoiceUI.state (voiceUI w5) = "error").
Proof.
  intros Hlisten Hcount Hall. split.
  - intros Hbelow.
    destruct (stream_error_schedules n w Hlisten Hcount ltac:(lia))
      as (w1 & Hstep & Hretry & Hs1 & Hp1).
    destruct (failed_attempts_schedule failures (S n) w1 Hretry Hall ltac:(lia))
      as (w' & Hrun & Hretry' & Hs & Hp).
    exists w'. cbn [run]. rewrite Hstep.
    split; [exact Hrun|]. split; [exact Hretry'|]. split; congruence.
  - intros Hcap.
    assert (Hgives : exists w4,
      run (StreamError :: flat_map attempt failures) w = Some w4 /\
      VoiceUI.state (voiceUI w4) = "error" /\
      VoiceUI.message (voiceUI w4) = "Voice connection lost" /\
      fetches "/voice/start" (trace w4) =
        fetches "/voice/start" (trace w) + length failures /\
      fetches "/voice/stop" (trace w4) = fetches "/voice/stop" (trace w) + 1 /\
      given_up w4 /\
      exists waiting, pending w4 = waiting ++ [AfterStopFetch true]).
    { cbn [run]. destruct (Nat.eq_dec n 4) as [-> | Hn].
      - destruct failures as [|? ?]; [|cbn [length] in Hcap; lia].
        destruct (stream_error_gives_up w Hlisten Hcount)
          as (w4 & Hstep & Hstate & Hmessage & Hs & Hp & Hgiven & Hpend).
        exists w4. rewrite Hstep. cbn [flat_map run length].
        split; [reflexivity|]. split; [exact Hstate|]. split; [exact Hmessage|].
        split; [lia|]. split; [exact Hp|]. split; [exact Hgiven|].
        now exists (pending w).
      - destruct (stream_error_schedules n w Hlisten Hcount ltac:(lia))
          as (w1 & Hstep & Hretry & Hs1 & Hp1).
        destruct (failed_attempts_give_up failures (S n) w1 Hretry Hall
                    ltac:(lia) ltac:(lia))
          as (w4 & Hrun & Hstate & Hmessage & Hs & Hp & Hgiven & Hpend).
        exists w4. rewrite Hstep.
        split; [exact Hrun|]. split; [exact Hstate|]. split; [exact Hmessage|].
        split; [lia|]. split; [lia|]. split; [exact Hgiven|].
        now exists (pending w1). }
    destruct Hgives
      as (w4 & Hrun & Hstate & Hmessage & Hs & Hp & Hgiven & waiting & Hpend).
    destruct (take_pending_last (AfterStopFetch true) waiting)
      as (rest & Htake & _).
    exists w4, (stop_resumed true rs (set_pending rest w4)).
    split; [exact Hrun|]. split; [exact Hstate|]. split; [exact Hmessage|].
    split; [exact Hs|]. split; [exact Hp|]. split; [exact Hgiven|].
    split.
    { intros events w' Hno Hrun'.
      exact (proj2 (given_up_run events w4 w' Hgiven Hno Hrun')). }
    split.
    { cbn [run step]. rewrite Hpend, Htake. reflexivity. }
    destruct Hgiven as (Hes & Hti & _).
    destruct w4 as [? ? ? ? [? ? ?] [? ? ? ?] ? ? ?]. cbn in *. subst.
    now destruct rs.
Qed.

Lemma C2_witness :
  exists w w4,
    run [CallStart; Settled AfterStartFetch (Status true); StreamError;
         TimerFired; Settled AfterRestartFetch (Status true)] initial = Some w /\
    listening w /\
    VoiceControl.reconnectAttempts (voiceControl w) = 1 /\
    run (StreamError :: flat_map attempt [Rejected; Status false; Rejected]) w
    = Some w4 /\
    VoiceUI.message (voiceUI w4) = "Voice connection lost" /\
    fetches "/voice/start" (trace w4) = fetches "/voice/start" (trace w) + 3 /\
    fetches "/voice/stop" (trace w4) = fetches "/voice/stop" (trace w) + 1.
Proof.
  destruct (run [CallStart; Settled AfterStartFetch (Status true); StreamError;
                 TimerFired; Settled AfterRestartFetch (Status true)] initial)
    as [w|] eqn:Hw; [|vm_compute in Hw; discriminate Hw].
  assert (Hlisten : listening w /\
                    VoiceControl.reconnectAttempts (voiceControl w) = 1).
  { vm_compute in Hw. injection Hw as <-. repeat split. }
  destruct Hlisten as [Hlisten Hcount].
  destruct (proj2 (C2_reconnect_gives_up_at_four_attempts w 1
                     [Rejected; Status false; Rejected] Rejected
                     Hlisten Hcount eq_refl) eq_refl)
    as (w4 & w5 & Hrun & _ & Hmessage & Hs & Hp & _).
  exists w, w4. split; [reflexivity|]. split; [exact Hlisten|].
  split; [exact Hcount|]. split; [exact Hrun|].
  split; [exact Hmessage|]. split; [exact Hs | exact Hp].
Defined.

(** ** The guard of [safeEvaluate] *)

Lemma span_append (class : ascii -> bool) (s : string) :
  (fst (Text.span class s) ++ snd (Text.span class s))%string = s.
Proof.
  induction s as [|c rest IH]; [reflexivity|].
  cbn [Text.span]. destruct (class c); [|reflexivity].
  destruct (Text.span class rest) as [taken left]. cbn in *. now rewrite IH.
Qed.

Lemma includes_tail (c : ascii) (s p : string) :
  Text.includes s p = true -> Text.includes (String c s) p = true.
Proof.
  intros H. cbn [Text.includes]. rewrite H. apply orb_true_r.
Qed.

Lemma includes_append (a b p : string) :
  Text.includes b p = true -> Text.includes (a ++ b)%string p = true.
Proof.
  intros H. induction a as [|c a IH]; [exact H|].
  cbn [String.append]. now apply includes_tail.
Qed.

Lemma includes_percent_head (s : string) :
  Text.includes (String "%" s) "%" = true.
Proof. reflexivity. Qed.

(** The pattern only matches a text that holds a percent sign. *)
Lemma match_number_percent_includes (s number : string) :
  Evaluator.match_number_percent s = Some number ->
  Text.includes s "%" = true.
Proof.
  unfold Evaluator.match_number_percent.
  pose proof (span_append Text.digit s) as Hs.
  destruct (Text.span Text.digit s) as [whole after_whole]. cbn [fst snd] in Hs.
  destruct (Text.truthy whole); [|discriminate].
  destruct after_whole as [|c after]; [discriminate|].
  destruct (Ascii.eqb c "%") eqn:Epc.
  - apply Ascii.eqb_eq in Epc. subst c. intros _. rewrite <- Hs.
    apply includes_append, includes_percent_head.
  - destruct (Ascii.eqb c ".") eqn:Ept.
    + apply Ascii.eqb_eq in Ept. subst c.
      pose proof (span_append Text.digit after) as Ha.
      destruct (Text.span Text.digit after) as [fraction after_fraction].
      cbn [fst snd] in Ha.
      destruct (Text.truthy fraction); [|discriminate].
      destruct after_fraction as [|d after']; [discriminate|].
      destruct (Ascii.eqb d "%") eqn:Epd.
      * apply Ascii.eqb_eq in Epd. subst d. intros _. rewrite <- Hs.
        apply includes_append, includes_tail. rewrite <- Ha.
        apply includes_append, includes_percent_head.
      * intros H. exfalso. revert H.
        destruct d as [[] [] [] [] [] [] [] []]; cbn in Epd;
          first [discriminate Epd | discriminate].
    + intros H. exfalso. revert H.
      destruct c as [[] [] [] [] [] [] [] []]; cbn in Epc, Ept;
        first [discriminate Epc | discriminate Ept | discriminate].
Qed.

(** A text without a percent sign passes the second [replace]
    unchanged. *)
Lemma rewrite_percent_without_percent (s : string) :
  Text.includes s "%" = false -> Evaluator.rewrite_percent s = s.
Proof.
  unfold Evaluator.rewrite_percent.
  induction s as [|c rest IH]; intros Hno; [reflexivity|].
  cbn [Evaluator.rewrite_percent_from].
  destruct (Evaluator.match_number_percent (String c rest)) as [number|] eqn:Em.
  - apply match_number_percent_includes in Em. congruence.
  - f_equal. apply IH.
    cbn [Text.includes] in Hno. apply orb_false_iff in Hno. tauto.
Qed.

(** The text ["8/0.5%"] is its own cleaned form and contains [/0]; its
    percentage is rewritten to ["8/(0.5/100)"], which does not, and the
    division yields 1600. *)
Lemma C9_counterexample :
  ~ refuses_every_cleaned_slash_zero Arithmetic.run_return Arithmetic.fixed12.
Proof.
  intros H. specialize (H "8/0.5%" eq_refl).
  vm_compute in H. discriminate H.
Qed.

(** C9, amended.  Whatever the engine, [safeEvaluate] throws
    [Invalid expression] for every expression whose cleaned form, once
    its percentages are rewritten to [(X/100)], contains [/0]; and the
    rewriting changes nothing when the cleaned form holds no percent
    sign, so there the test is on the cleaned form itself.  The test
    looks at the text, not at the divisor: ["8/0.5"] is refused. *)
Theorem C9_guard_is_a_substring_test
  (run_return : string -> option float) (fixed12 : float -> float)
  (expression : string) :
  Text.includes (Evaluator.guarded_text expression) "/0" = true \/
  (Text.includes (cleaned expression) "/0" = true /\
   Text.includes (cleaned expression) "%" = false) ->
  Evaluator.safeEvaluate run_return fixed12 expression =
  Evaluator.Throws "Invalid expression".
Proof.
  intros H.
  assert (Hg : Text.includes (Evaluator.guarded_text expression) "/0" = true).
  { destruct H as [Hg | [Hc Hp]]; [exact Hg|].
    unfold Evaluator.guarded_text. fold (cleaned expression).
    now rewrite (rewrite_percent_without_percent _ Hp). }
  unfold Evaluator.safeEvaluate. cbv zeta.
  fold (Evaluator.guarded_text expression). rewrite Hg. reflexivity.
Qed.

Lemma C9_witness :
  (Text.includes (cleaned "8/0.5") "/0" = true /\
   Text.includes (cleaned "8/0.5") "%" = false) /\
  Evaluator.safeEvaluate Arithmetic.run_return Arithmetic.fixed12 "8/0.5" =
  Evaluator.Throws "Invalid expression".
Proof.
  split; [split; reflexivity|].
  apply C9_guard_is_a_substring_test. right. split; reflexivity.
Defined.

(** ** Further properties of the script *)

(** X1.  The same [append_expression] event received twice, the first
    time accepted: the display is redrawn once when the second arrives
    less than 300 milliseconds after the first, twice when it arrives 300
    milliseconds after it or later. *)
Theorem identical_expressions_redraw_once_inside_the_window
  (p : Payload.t) (received : string) (t1 t2 : Z) (w : World) :
  Payload.type p = Some "result" ->
  Payload.action p = Some "append_expression" ->
  Payload.expression p = Some received ->
  sanitize received <> "" ->
  ~ duplicate (sanitize received) t1 w ->
  let w1 := handleVoicePayload (JObject p) t1 w in
  let w2 := handleVoicePayload (JObject p) t2 w1 in
  ((t2 - t1 < 300)%Z ->
   display_updates (trace w2) = display_updates (trace w) + 1) /\
  ((300 <= t2 - t1)%Z ->
   display_updates (trace w2) = display_updates (trace w) + 2).
Proof.
  intros Ht Ha He Hs Hfirst. cbv zeta.
  assert (Hevent : forall now v,
            handleVoicePayload (JObject p) now v =
            injectVoiceExpression (Some received) (confidence_or_1 p) now
              (voiceUI_set "Listening…" "listening" "info" v)).
  { intros now v. rewrite (handleVoicePayload_result p now v Ht).
    unfold handleVoiceResult. rewrite Ha, He. reflexivity. }
  rewrite !Hevent.
  set (v0 := voiceUI_set "Listening…" "listening" "info" w).
  destruct (injectVoiceExpression_usable received (confidence_or_1 p) t1 v0 Hs)
    as [_ Hacc1]. cbv zeta in Hacc1.
  destruct (Hacc1 Hfirst) as [(_ & Hlast1 & Hts1) Htrace1].
  set (w1 := injectVoiceExpression (Some received) (confidence_or_1 p) t1 v0) in *.
  set (v1 := voiceUI_set "Listening…" "listening" "info" w1).
  destruct (injectVoiceExpression_usable received (confidence_or_1 p) t2 v1 Hs)
    as [Hskip2 Hacc2]. cbv zeta in Hskip2, Hacc2.
  assert (Hd1 : display_updates (trace v1) = display_updates (trace w) + 1).
  { change (trace v1) with (trace w1).
    rewrite Htrace1, display_updates_app. cbn. lia. }
  assert (Hlast : lastVoiceExpression v1 = sanitize received) by exact Hlast1.
  assert (Hts : lastVoiceTimestamp v1 = t1) by exact Hts1.
  clearbody v1 w1.
  split.
  - intros Hnear. rewrite Hskip2; [exact Hd1|].
    split; [now rewrite Hlast | now rewrite Hts].
  - intros Hfar.
    destruct Hacc2 as [_ Htrace2].
    { intros [_ Hl]. rewrite Hts in Hl. lia. }
    rewrite Htrace2, display_updates_app. cbn. lia.
Qed.

Lemma identical_expressions_witness :
  display_updates
    (trace
       (handleVoicePayload
          (JObject (Payload.make (Some "result") None None None
                      (Some "append_expression") (Some "7-2") None)) 1100
          (handleVoicePayload
             (JObject (Payload.make (Some "result") None None None
                         (Some "append_expression") (Some "7-2") None)) 1000
             initial))) = 1.
Proof.
  assert (Hs : sanitize "7-2" <> "") by (vm_compute; discriminate).
  assert (Hfirst : ~ duplicate (sanitize "7-2") 1000 initial).
  { intros [He _]. vm_compute in He. discriminate He. }
  exact (proj1 (identical_expressions_redraw_once_inside_the_window
                  (Payload.make (Some "result") None None None
                     (Some "append_expression") (Some "7-2") None)
                  "7-2" 1000 1100 initial eq_refl eq_refl eq_refl Hs Hfirst)
               eq_refl).
Defined.

(** X2.  A reconnect attempt that succeeds opens a new stream and shows
    the listening status, and leaves [reconnectAttempts] as it was: the
    counter goes back to zero only in [start] and [stop], so the cap of
    four counts the attempts made since then, successful ones included. *)
Theorem successful_reconnect_keeps_the_count (n : nat) (w : World) :
  reconnecting n w ->
  exists w',
    run (attempt (Status true)) w = Some w' /\
    VoiceControl.reconnectAttempts (voiceControl w') = n /\
    VoiceControl.active (voiceControl w') = true /\
    VoiceControl.eventSource (voiceControl w') = Some (fresh w) /\
    VoiceControl.reconnectTimer (voiceControl w') = None /\
    VoiceUI.state (voiceUI w') = "listening".
Proof.
  intros (Hactive & Hstream & Htimer & Hcount & Hpending).
  destruct w as [cur reset lastE lastT ui [act source [timer|] count] pend next tr];
    cbn in Hactive, Hstream, Htimer, Hcount, Hpending; [|discriminate Htimer].
  subst act source count pend.
  eexists. split; [reflexivity|]. repeat split.
Qed.

Lemma successful_reconnect_witness :
  exists w w',
    reconnecting 1 w /\
    run (attempt (Status true)) w = Some w' /\
    VoiceControl.reconnectAttempts (voiceControl w') = 1.
Proof.
  exists (onerror (start_resumed (Status true) (set_pending [] (start initial)))).
  assert (Hrec : reconnecting 1
            (onerror (start_resumed (Status true) (set_pending [] (start initial)))))
    by (repeat split).
  destruct (successful_reconnect_keeps_the_count 1 _ Hrec) as (w' & Hrun & Hn & _).
  exists w'. split; [exact Hrec|]. split; [exact Hrun | exact Hn].
Defined.

(** ** Texts, from their end *)

Lemma append_empty (s : string) : (s ++ "")%string = s.
Proof. induction s as [|c s IH]; [reflexivity|]. cbn. now rewrite IH. Qed.

Lemma append_assoc (s t u : string) :
  ((s ++ t) ++ u)%string = (s ++ (t ++ u))%string.
Proof. induction s as [|c s IH]; [reflexivity|]. cbn. now rewrite IH. Qed.

Lemma snoc_cons (a : ascii) (s : string) (c : ascii) :
  snoc (String a s) c = String a (snoc s c).
Proof. reflexivity. Qed.

Lemma snoc_not_empty (s : string) (c : ascii) : snoc s c <> "".
Proof. destruct s; discriminate. Qed.

Lemma append_snoc (s t : string) (c : ascii) :
  (s ++ snoc t c)%string = snoc (s ++ t)%string c.
Proof. unfold snoc. now rewrite append_assoc. Qed.

(** A text that is not empty ends in a character. *)
Lemma unsnoc (s : string) :
  s <> "" -> exists init c, s = snoc init c.
Proof.
  induction s as [|a s IH]; [congruence|]. intros _.
  destruct s as [|b s].
  - exists "", a. reflexivity.
  - destruct IH as (init & c & E); [discriminate|].
    exists (String a init), c. rewrite snoc_cons. now rewrite <- E.
Qed.

Lemma snoc_inj (s t : string) (c d : ascii) :
  snoc s c = snoc t d -> s = t /\ c = d.
Proof.
  revert t. induction s as [|a s IH]; intros [|b t] E; cbn in E.
  - injection E as ->. now split.
  - injection E as -> E. destruct t; discriminate E.
  - injection E as -> E. destruct s; discriminate E.
  - injection E as -> E. destruct (IH t E) as [-> ->]. now split.
Qed.

Lemma slice_0_minus1_snoc (s : string) (c : ascii) :
  Text.slice_0_minus1 (snoc s c) = s.
Proof.
  induction s as [|a s IH]; [reflexivity|].
  rewrite snoc_cons. cbn [Text.slice_0_minus1].
  destruct (snoc s c) eqn:E; [now apply snoc_not_empty in E|].
  now rewrite IH.
Qed.

Lemma slice_minus1_snoc (s : string) (c : ascii) :
  slice_minus1 (snoc s c) = String c "".
Proof.
  induction s as [|a s IH]; [reflexivity|].
  rewrite snoc_cons. cbn [slice_minus1].
  destruct (snoc s c) eqn:E; [now apply snoc_not_empty in E|]. exact IH.
Qed.

Lemma last_char_snoc (s : string) (c : ascii) : last_char (snoc s c) = Some c.
Proof.
  induction s as [|a s IH]; [reflexivity|].
  rewrite snoc_cons. cbn [last_char].
  destruct (snoc s c) eqn:E; [now apply snoc_not_empty in E|]. exact IH.
Qed.

Lemma ends_with_class_snoc (class : ascii -> bool) (s : string) (c : ascii) :
  ends_with_class class (snoc s c) = class c.
Proof.
  induction s as [|a s IH]; [reflexivity|].
  rewrite snoc_cons. cbn [ends_with_class].
  destruct (snoc s c) eqn:E; [now apply snoc_not_empty in E|]. exact IH.
Qed.

Lemma isOperator_char (c : ascii) :
  isOperator (String c "") = operator_class c.
Proof.
  destruct c as [[] [] [] [] [] [] [] []]; reflexivity.
Qed.

Lemma eqb_char (c d : ascii) :
  String.eqb (String c "") (String d "") = Ascii.eqb c d.
Proof. cbn. now destruct (Ascii.eqb c d). Qed.

Lemma count_char_append (x : ascii) (s t : string) :
  count_char x (s ++ t)%string = count_char x s + count_char x t.
Proof.
  induction s as [|a s IH]; [reflexivity|]. cbn. rewrite IH. lia.
Qed.

Lemma count_char_snoc (x : ascii) (s : string) (c : ascii) :
  count_char x (snoc s c) = count_char x s + (if Ascii.eqb c x then 1 else 0).
Proof. unfold snoc. rewrite count_char_append. cbn. lia. Qed.

Lemma pairs_ok_snoc (bad : ascii -> ascii -> bool) (s : string) (c : ascii) :
  pairs_ok bad (snoc s c) =
  pairs_ok bad s &&
  match last_char s with
  | Some a => negb (bad a c)
  | None => true
  end.
Proof.
  induction s as [|a s IH]; [reflexivity|].
  destruct s as [|b s].
  - cbn. now rewrite andb_true_r.
  - rewrite snoc_cons.
    change (pairs_ok bad (String a (snoc (String b s) c)))
      with (negb (bad a b) && pairs_ok bad (snoc (String b s) c)).
    rewrite IH.
    change (pairs_ok bad (String a (String b s)))
      with (negb (bad a b) && pairs_ok bad (String b s)).
    change (last_char (String a (String b s))) with (last_char (String b s)).
    now rewrite andb_assoc.
Qed.

(** The parts of a text that got one more character. *)
Lemma split_snoc (class : ascii -> bool) (s : string) (c : ascii) :
  split class (snoc s c) =
  if class c then split class s ++ [EmptyString]
  else List.removelast (split class s)
       ++ [snoc (List.last (split class s) EmptyString) c].
Proof.
  induction s as [|a s IH].
  - cbn. now destruct (class c).
  - rewrite snoc_cons. cbn [split]. rewrite IH.
    assert (Hne : split class s <> []).
    { destruct s as [|b s]; cbn; [discriminate|].
      destruct (class b); [discriminate|].
      destruct (split class s); discriminate. }
    destruct (class a), (class c).
    + reflexivity.
    + cbn [List.removelast List.last].
      destruct (split class s) as [|p ps]; [congruence|]. reflexivity.
    + destruct (split class s) as [|p ps]; [congruence|]. reflexivity.
    + destruct (split class s) as [|p ps]; [congruence|].
      destruct ps as [|q ps]; [reflexivity|].
      cbn [List.removelast List.last app].
      destruct (List.removelast (q :: ps) ++ [snoc (List.last (q :: ps) "") c])
        eqn:E.
      * destruct (List.removelast (q :: ps)); discriminate E.
      * reflexivity.
Qed.

(** ** What a keystroke keeps *)

Lemma digit_not_operator (d : ascii) :
  Text.digit d = true ->
  operator_class d = false /\ Ascii.eqb d "(" = false /\
  Ascii.eqb d "." = false /\ Ascii.eqb d ")" = false /\
  Evaluator.outside_clean_class d = false.
Proof.
  destruct d as [[] [] [] [] [] [] [] []]; cbn; intros H;
    first [discriminate H | repeat split].
Qed.

Lemma operator_not_parenthesis (o : ascii) :
  operator_class o = true ->
  Ascii.eqb o "(" = false /\ Ascii.eqb o "." = false /\
  Ascii.eqb o ")" = false /\ Evaluator.outside_clean_class o = false.
Proof.
  destruct o as [[] [] [] [] [] [] [] []]; cbn; intros H;
    first [discriminate H | repeat split].
Qed.

Lemma no_doubled_operator_keystroke (s t : string) :
  keystroke s t -> no_doubled_operator s -> no_doubled_operator t.
Proof.
  unfold no_doubled_operator, doubled_operator.
  intros K. destruct K as [s c|s d Hd|s o Ho Hlast|s old o Hold Ho|s Hp|s Hlast|s Hc];
    rewrite ?pairs_ok_snoc; intros H.
  - now apply andb_true_iff in H as [H _].
  - rewrite H. destruct (digit_not_operator d Hd) as (-> & _).
    destruct (last_char s); now rewrite ?andb_false_r.
  - rewrite H. destruct (last_char s) as [a|]; [|reflexivity]. now rewrite Hlast.
  - apply andb_true_iff in H as [-> H].
    destruct (last_char s) as [a|]; [|reflexivity].
    rewrite Hold, andb_true_r in H. rewrite Ho, andb_true_r. exact H.
  - rewrite H. destruct (last_char s); now rewrite ?andb_false_r.
  - rewrite H. destruct (last_char s); now rewrite ?andb_false_r.
  - rewrite H. destruct (last_char s); now rewrite ?andb_false_r.
Qed.

Lemma no_open_after_operand_keystroke (s t : string) :
  keystroke s t -> no_open_after_operand s -> no_open_after_operand t.
Proof.
  unfold no_open_after_operand, open_after_operand.
  intros K. destruct K as [s c|s d Hd|s o Ho Hlast|s old o Hold Ho|s Hp|s Hlast|s Hc];
    rewrite ?pairs_ok_snoc; intros H.
  - now apply andb_true_iff in H as [H _].
  - rewrite H. destruct (digit_not_operator d Hd) as (_ & -> & _).
    now destruct (last_char s).
  - rewrite H. destruct (operator_not_parenthesis o Ho) as (-> & _).
    now destruct (last_char s).
  - apply andb_true_iff in H as [-> _].
    destruct (operator_not_parenthesis o Ho) as (-> & _).
    now destruct (last_char s).
  - rewrite H. now destruct (last_char s).
  - rewrite H. destruct (last_char s) as [a|]; [|reflexivity].
    destruct Hlast as [Ha | ->]; [now rewrite Ha | reflexivity].
  - rewrite H. now destruct (last_char s).
Qed.

Lemma split_not_nil (class : ascii -> bool) (s : string) : split class s <> [].
Proof.
  destruct s as [|b s]; cbn; [discriminate|].
  destruct (class b); [discriminate|].
  destruct (split class s); discriminate.
Qed.

Lemma includes_point_count (s : string) :
  Text.includes s "." = false -> count_char "." s = 0.
Proof.
  induction s as [|c s IH]; [reflexivity|].
  cbn [Text.includes Text.starts_with count_char]. intros H.
  apply orb_false_iff in H as [Hc Hs]. rewrite (IH Hs).
  destruct (Ascii.eqb c ".") eqn:E; [|reflexivity].
  apply Ascii.eqb_eq in E. subst c. discriminate Hc.
Qed.

Lemma one_point_per_operand_drop (s : string) (c : ascii) :
  one_point_per_operand (snoc s c) -> one_point_per_operand s.
Proof.
  unfold one_point_per_operand. rewrite split_snoc.
  pose proof (split_not_nil operator_class s) as Hne.
  destruct (operator_class c).
  - intros H. now apply Forall_app in H as [H _].
  - intros H. apply Forall_app in H as [Hinit Hlast].
    rewrite (app_removelast_last EmptyString Hne).
    apply Forall_app. split; [exact Hinit|].
    constructor; [|constructor]. apply Forall_inv in Hlast.
    rewrite count_char_snoc in Hlast. lia.
Qed.

Lemma one_point_per_operand_snoc (s : string) (c : ascii) :
  one_point_per_operand s ->
  (Ascii.eqb c "." = true ->
   count_char "." (List.last (split operator_class s) EmptyString) = 0) ->
  one_point_per_operand (snoc s c).
Proof.
  unfold one_point_per_operand. rewrite split_snoc.
  pose proof (split_not_nil operator_class s) as Hne.
  intros H Hc. destruct (operator_class c).
  - apply Forall_app. split; [exact H|]. constructor; [cbn; lia | constructor].
  - rewrite (app_removelast_last EmptyString Hne) in H.
    apply Forall_app in H as [Hinit Hlast]. apply Forall_inv in Hlast.
    apply Forall_app. split; [exact Hinit|].
    constructor; [|constructor]. rewrite count_char_snoc.
    destruct (Ascii.eqb c "."); [rewrite (Hc eq_refl); lia | lia].
Qed.

Lemma one_point_per_operand_keystroke (s t : string) :
  keystroke s t -> one_point_per_operand s -> one_point_per_operand t.
Proof.
  intros K. destruct K as [s c|s d Hd|s o Ho Hlast|s old o Hold Ho|s Hp|s Hlast|s Hc];
    intros H.
  - exact (one_point_per_operand_drop s c H).
  - apply one_point_per_operand_snoc; [exact H|].
    destruct (digit_not_operator d Hd) as (_ & _ & -> & _). discriminate.
  - apply one_point_per_operand_snoc; [exact H|].
    destruct (operator_not_parenthesis o Ho) as (_ & -> & _). discriminate.
  - apply one_point_per_operand_snoc;
      [exact (one_point_per_operand_drop s old H)|].
    destruct (operator_not_parenthesis o Ho) as (_ & -> & _). discriminate.
  - apply one_point_per_operand_snoc; [exact H|].
    intros _. now apply includes_point_count.
  - apply one_point_per_operand_snoc; [exact H | discriminate].
  - apply one_point_per_operand_snoc; [exact H | discriminate].
Qed.

(** A beginning of a text with one more character is the whole of it or
    a beginning of the text. *)
Lemma beginning_of_snoc (s t u : string) (c : ascii) :
  snoc s c = (t ++ u)%string ->
  (u = "" /\ t = snoc s c) \/ exists u', s = (t ++ u')%string.
Proof.
  revert s. induction t as [|a t IH]; intros s E.
  - right. exists s. reflexivity.
  - destruct s as [|b s].
    + cbn in E. injection E as -> E.
      destruct t; [|discriminate E]. cbn in E. subst u. now left.
    + rewrite snoc_cons in E. cbn in E. injection E as -> E.
      destruct (IH s E) as [[-> ->] | (u' & ->)].
      * left. now split.
      * right. now exists u'.
Qed.

Lemma never_overclosed_snoc (s : string) (c : ascii) :
  never_overclosed s ->
  (Ascii.eqb c ")" = true -> count_char ")" s < count_char "(" s) ->
  never_overclosed (snoc s c).
Proof.
  intros H Hc t u E.
  destruct (beginning_of_snoc s t u c E) as [[-> ->] | (u' & Es)].
  - rewrite !count_char_snoc.
    specialize (H s "" (eq_sym (append_empty s))).
    destruct (Ascii.eqb c ")") eqn:Ec.
    + specialize (Hc eq_refl). destruct (Ascii.eqb c "("); lia.
    + destruct (Ascii.eqb c "("); lia.
  - exact (H t u' Es).
Qed.

Lemma never_overclosed_drop (s : string) (c : ascii) :
  never_overclosed (snoc s c) -> never_overclosed s.
Proof.
  intros H t u E. apply (H t (snoc u c)). rewrite append_snoc. now rewrite E.
Qed.

Lemma never_overclosed_keystroke (s t : string) :
  keystroke s t -> never_overclosed s -> never_overclosed t.
Proof.
  intros K. destruct K as [s c|s d Hd|s o Ho Hlast|s old o Hold Ho|s Hp|s Hlast|s Hc];
    intros H.
  - exact (never_overclosed_drop s c H).
  - apply never_overclosed_snoc; [exact H|].
    destruct (digit_not_operator d Hd) as (_ & _ & _ & -> & _). discriminate.
  - apply never_overclosed_snoc; [exact H|].
    destruct (operator_not_parenthesis o Ho) as (_ & _ & -> & _). discriminate.
  - apply never_overclosed_snoc; [exact (never_overclosed_drop s old H)|].
    destruct (operator_not_parenthesis o Ho) as (_ & _ & -> & _). discriminate.
  - apply never_overclosed_snoc; [exact H | discriminate].
  - apply never_overclosed_snoc; [exact H | discriminate].
  - apply never_overclosed_snoc; [exact H | intros _; exact Hc].
Qed.

Lemma delete_all_length (class : ascii -> bool) (s : string) :
  String.length (Text.delete_all class s) <= String.length s.
Proof.
  induction s as [|c s IH]; [reflexivity|].
  cbn [Text.delete_all]. destruct (class c); cbn; lia.
Qed.

(** A text is its own cleaned form exactly when the class that is
    deleted matches none of its characters. *)
Lemma delete_all_fixed (class : ascii -> bool) (s : string) :
  Text.delete_all class s = s <->
  all_of_class (fun c => negb (class c)) s = true.
Proof.
  induction s as [|c s IH]; [now split|].
  cbn [Text.delete_all all_of_class]. destruct (class c) eqn:Ec; cbn [negb andb].
  - split; [|discriminate]. intros E.
    pose proof (delete_all_length class s) as Hl. rewrite E in Hl. cbn in Hl. lia.
  - rewrite <- IH. split; [now intros [= ->] | now intros ->].
Qed.

Lemma all_of_class_append (class : ascii -> bool) (s t : string) :
  all_of_class class (s ++ t)%string = all_of_class class s && all_of_class class t.
Proof.
  induction s as [|c s IH]; [reflexivity|]. cbn. now rewrite IH, andb_assoc.
Qed.

Lemma only_calculator_characters_keystroke (s t : string) :
  keystroke s t -> only_calculator_characters s -> only_calculator_characters t.
Proof.
  unfold only_calculator_characters. rewrite !delete_all_fixed.
  intros K. destruct K as [s c|s d Hd|s o Ho Hlast|s old o Hold Ho|s Hp|s Hlast|s Hc];
    unfold snoc; rewrite ?all_of_class_append; intros H.
  - now apply andb_true_iff in H as [H _].
  - rewrite H. cbn. destruct (digit_not_operator d Hd) as (_ & _ & _ & _ & ->).
    reflexivity.
  - rewrite H. cbn. destruct (operator_not_parenthesis o Ho) as (_ & _ & _ & ->).
    reflexivity.
  - apply andb_true_iff in H as [-> _]. cbn.
    destruct (operator_not_parenthesis o Ho) as (_ & _ & _ & ->). reflexivity.
  - now rewrite H.
  - now rewrite H.
  - now rewrite H.
Qed.

Lemma keystrokes_keep (P : string -> Prop) :
  (forall s t, keystroke s t -> P s -> P t) ->
  forall s t, keystrokes s t -> P s -> P t.
Proof.
  intros Hstep s t K. induction K as [s|s t u K1 _ IH]; [easy|].
  intros H. apply IH. exact (Hstep s t K1 H).
Qed.

(** ** The editing keys, as keystrokes *)

Lemma keys_one (s t : string) : keystroke s t -> keystrokes s t.
Proof. intros K. exact (keys_more s t t K (keys_none t)). Qed.

Lemma keys_then (s t u : string) :
  keystrokes s t -> keystrokes t u -> keystrokes s u.
Proof.
  intros K. induction K as [s|s t v K1 _ IH]; [easy|].
  intros K2. exact (keys_more s t u K1 (IH K2)).
Qed.

(** Dropping characters leads to every beginning of a text. *)
Lemma keys_to_beginning (s t : string) : keystrokes (s ++ t)%string s.
Proof.
  revert s. induction t as [|c t IH]; intros s.
  - rewrite append_empty. apply keys_none.
  - change (String c t) with (String c "" ++ t)%string.
    rewrite <- append_assoc.
    eapply keys_then; [apply IH|]. apply keys_one, key_drop.
Qed.

Lemma keys_to_empty (s : string) : keystrokes s "".
Proof. exact (keys_to_beginning "" s). Qed.

Lemma strip_trailing_number_beginning (s : string) :
  exists t, s = (strip_trailing_number s ++ t)%string.
Proof.
  induction s as [|c s (t & IH)]; [now exists ""|].
  cbn [strip_trailing_number]. destruct (number_to_end (String c s)).
  - now exists (String c s).
  - exists t. cbn. now rewrite <- IH.
Qed.

Lemma truthy_snoc (s : string) (c : ascii) : Text.truthy (snoc s c) = true.
Proof. now destruct s. Qed.

(** The expression after a call, whatever the call did to the flag and
    the display. *)
Ltac expression_of_setters :=
  cbn [currentExpression shouldResetOnNextInput updateDisplay emit set_trace
       set_currentExpression set_shouldResetOnNextInput].

Lemma clearAll_keys (w : World) :
  keystrokes (currentExpression w) (currentExpression (clearAll w)).
Proof. apply keys_to_empty. Qed.

Lemma backspace_keys (w : World) :
  keystrokes (currentExpression w) (currentExpression (backspace w)).
Proof.
  unfold backspace. destruct (Text.truthy (currentExpression w)) eqn:E;
    cbn [negb]; [|apply keys_none].
  apply truthy_true in E. destruct (unsnoc _ E) as (init & c & Es).
  expression_of_setters. rewrite Es, slice_0_minus1_snoc.
  apply keys_one, key_drop.
Qed.

Lemma clearEntry_keys (w : World) :
  keystrokes (currentExpression w) (currentExpression (clearEntry w)).
Proof.
  unfold clearEntry. destruct (Text.truthy (currentExpression w)) eqn:E;
    cbn [negb]; [|apply keys_none].
  apply truthy_true in E.
  destruct (ends_with_class Text.digit (currentExpression w)); expression_of_setters.
  - destruct (strip_trailing_number_beginning (currentExpression w)) as (t & Et).
    rewrite Et at 1. apply keys_to_beginning.
  - destruct (unsnoc _ E) as (init & c & Es).
    rewrite Es, slice_0_minus1_snoc. apply keys_one, key_drop.
Qed.

Lemma addDigit_keys (d : ascii) (w : World) :
  Text.digit d = true ->
  keystrokes (currentExpression w) (currentExpression (addDigit (String d "") w)).
Proof.
  intros Hd. unfold addDigit.
  assert (Hgo : forall v,
    keystrokes (currentExpression v)
      (currentExpression
         (if String.eqb (String d "") "0" && String.eqb (currentExpression v) "0"
          then v
          else
            updateDisplay
              (if String.eqb (currentExpression v) "0"
                  && negb (String.eqb (String d "") ".")
               then set_currentExpression (String d "") v
               else set_currentExpression
                      (currentExpression v ++ String d "")%string v)))).
  { intros v.
    destruct (String.eqb (String d "") "0" && String.eqb (currentExpression v) "0");
      [apply keys_none|].
    destruct (String.eqb (currentExpression v) "0" && negb (String.eqb (String d "") "."));
      expression_of_setters.
    - eapply keys_then; [apply keys_to_empty|].
      apply keys_one. exact (key_digit "" d Hd).
    - apply keys_one. exact (key_digit _ d Hd). }
  destruct (shouldResetOnNextInput w).
  - eapply keys_then; [apply keys_to_empty|].
    exact (Hgo (set_shouldResetOnNextInput false (set_currentExpression "" w))).
  - exact (Hgo w).
Qed.

Lemma addOperator_keys (o : ascii) (w : World) :
  operator_class o = true ->
  keystrokes (currentExpression w) (currentExpression (addOperator (String o "") w)).
Proof.
  intros Ho. unfold addOperator.
  assert (Hgo : forall v,
    keystrokes (currentExpression v)
      (currentExpression
         (if negb (Text.truthy (currentExpression v))
          then
            updateDisplay
              (if String.eqb (String o "") "-" then set_currentExpression "-" v else v)
          else
            updateDisplay
              (if isOperator (getLastChar v)
               then set_currentExpression
                      (Text.slice_0_minus1 (currentExpression v) ++ String o "")%string v
               else if negb (String.eqb (getLastChar v) ".")
               then set_currentExpression
                      (currentExpression v ++ String o "")%string v
               else v)))).
  { intros v. unfold getLastChar.
    destruct (Text.truthy (currentExpression v)) eqn:E; cbn [negb].
    - apply truthy_true in E. destruct (unsnoc _ E) as (init & c & Es).
      rewrite Es, slice_minus1_snoc, isOperator_char, slice_0_minus1_snoc.
      destruct (operator_class c) eqn:Ec; expression_of_setters.
      + apply keys_one. exact (key_replace init c o Ec Ho).
      + destruct (String.eqb (String c "") "."); cbn [negb]; expression_of_setters;
          [rewrite Es; apply keys_none|].
        apply keys_one. apply (key_operator (snoc init c) o Ho).
        now rewrite last_char_snoc.
    - apply truthy_false in E. rewrite E.
      destruct (String.eqb (String o "") "-") eqn:Em; expression_of_setters;
        [|rewrite E; apply keys_none].
      rewrite eqb_char in Em. apply Ascii.eqb_eq in Em. subst o.
      apply keys_one. exact (key_operator "" "-" eq_refl I). }
  destruct (shouldResetOnNextInput w).
  - exact (Hgo (set_shouldResetOnNextInput false w)).
  - exact (Hgo w).
Qed.

Lemma addDecimal_keys (w : World) :
  keystrokes (currentExpression w) (currentExpression (addDecimal w)).
Proof.
  unfold addDecimal.
  assert (Hzero : keystrokes "" "0.").
  { eapply keys_more; [exact (key_digit "" "0" eq_refl)|].
    apply keys_one. exact (key_point "0" eq_refl). }
  destruct (shouldResetOnNextInput w).
  - expression_of_setters. cbn.
    eapply keys_then; [apply keys_to_empty | exact Hzero].
  - destruct (Text.truthy (currentExpression w)) eqn:E; cbn [negb].
    + destruct (canAddDecimal w && negb (isOperator (getLastChar w))) eqn:Ec;
        expression_of_setters; [|apply keys_none].
      apply andb_true_iff in Ec as [Ec _]. unfold canAddDecimal in Ec.
      apply negb_true_iff in Ec.
      apply keys_one. exact (key_point _ Ec).
    + expression_of_setters. apply truthy_false in E. rewrite E. exact Hzero.
Qed.

Lemma addParenthesis_open_keys (w : World) :
  keystrokes (currentExpression w) (currentExpression (addParenthesis "(" w)).
Proof.
  unfold addParenthesis.
  assert (Hgo : forall v,
    keystrokes (currentExpression v)
      (currentExpression
         (updateDisplay
            (set_currentExpression
               (currentExpression
                  (if Text.truthy (getLastChar v) && negb (isOperator (getLastChar v))
                      && negb (String.eqb (getLastChar v) "(")
                   then set_currentExpression (currentExpression v ++ "*")%string v
                   else v) ++ "(")%string
               (if Text.truthy (getLastChar v) && negb (isOperator (getLastChar v))
                   && negb (String.eqb (getLastChar v) "(")
                then set_currentExpression (currentExpression v ++ "*")%string v
                else v))))).
  { intros v. unfold getLastChar. expression_of_setters.
    destruct (currentExpression v) as [|a s] eqn:Ev.
    - cbn. rewrite ?Ev. apply keys_one. exact (key_open "" I).
    - assert (Hne : String a s <> "") by discriminate.
      destruct (unsnoc _ Hne) as (init & c & Es). rewrite Es.
      rewrite slice_minus1_snoc, isOperator_char, eqb_char.
      cbn [Text.truthy andb].
      destruct (operator_class c) eqn:Ec; cbn [negb andb].
      + rewrite <- Es, Ev. apply keys_one.
        rewrite Es. apply key_open. rewrite last_char_snoc. now left.
      + destruct (Ascii.eqb c "(") eqn:Ep; cbn [negb]; expression_of_setters.
        * rewrite <- Es, Ev. apply keys_one.
          rewrite Es. apply key_open. rewrite last_char_snoc.
          right. now apply Ascii.eqb_eq.
        * eapply keys_more.
          { apply (key_operator (snoc init c) "*" eq_refl).
            now rewrite last_char_snoc. }
          apply keys_one. apply key_open. rewrite last_char_snoc. now left. }
  cbn [String.eqb Ascii.eqb Bool.eqb].
  destruct (shouldResetOnNextInput w).
  - exact (Hgo (set_shouldResetOnNextInput false w)).
  - exact (Hgo w).
Qed.

Lemma addParenthesis_close_keys (w : World) :
  keystrokes (currentExpression w) (currentExpression (addParenthesis ")" w)).
Proof.
  unfold addParenthesis.
  assert (Hgo : forall v,
    keystrokes (currentExpression v)
      (currentExpression
         (updateDisplay
            (if (count_char ")" (currentExpression v)
                 <? count_char "(" (currentExpression v))%nat
                && negb (isOperator (getLastChar v))
             then set_currentExpression (currentExpression v ++ ")")%string v
             else v)))).
  { intros v.
    destruct ((count_char ")" (currentExpression v)
               <? count_char "(" (currentExpression v))%nat
              && negb (isOperator (getLastChar v))) eqn:Ec;
      expression_of_setters; [|apply keys_none].
    apply andb_true_iff in Ec as [Ec _]. apply Nat.ltb_lt in Ec.
    apply keys_one. exact (key_close _ Ec). }
  cbn [String.eqb Ascii.eqb Bool.eqb].
  destruct (shouldResetOnNextInput w).
  - exact (Hgo (set_shouldResetOnNextInput false w)).
  - exact (Hgo w).
Qed.

(** A property that every keystroke keeps is kept by every editing
    key. *)
Lemma keypad_keeps_of_keystrokes (P : string -> Prop) :
  P "" ->
  (forall s t, keystroke s t -> P s -> P t) ->
  keypad_keeps P.
Proof.
  intros Hempty Hstep. split; [exact Hempty|].
  intros w d o Hd Ho H.
  pose proof (keystrokes_keep P Hstep) as Hkeys.
  repeat split.
  - exact (Hkeys _ _ (addDigit_keys d w Hd) H).
  - exact (Hkeys _ _ (addOperator_keys o w Ho) H).
  - exact (Hkeys _ _ (addDecimal_keys w) H).
  - exact (Hkeys _ _ (addParenthesis_open_keys w) H).
  - exact (Hkeys _ _ (addParenthesis_close_keys w) H).
  - exact (Hkeys _ _ (clearEntry_keys w) H).
  - exact (Hkeys _ _ (backspace_keys w) H).
  - exact (Hkeys _ _ (clearAll_keys w) H).
Qed.

(** ** Invariants of the keypad *)

(** X3.  The editing keys never put two operators side by side: typing
    an operator after an operator replaces it. *)
Theorem keypad_never_doubles_an_operator : keypad_keeps no_doubled_operator.
Proof.
  apply keypad_keeps_of_keystrokes;
    [reflexivity | exact no_doubled_operator_keystroke].
Qed.

Lemma keypad_never_doubles_an_operator_witness :
  no_doubled_operator "5+" /\
  currentExpression (addOperator "-" (set_currentExpression "5+" initial)) = "5-" /\
  no_doubled_operator
    (currentExpression (addOperator "-" (set_currentExpression "5+" initial))).
Proof.
  split; [reflexivity|]. split; [reflexivity|].
  exact (proj1 (proj2 (proj2 keypad_never_doubles_an_operator
                         (set_currentExpression "5+" initial) "7"%char "-"%char
                         eq_refl eq_refl eq_refl))).
Defined.

(** X4.  The editing keys never put an opening parenthesis right after
    a digit, a point or a closing parenthesis: typed there it gets a [*]
    before it, so the expression never holds a call such as [5(].  The
    property is about the opening parenthesis only: a digit typed after a
    closing parenthesis is appended as it is. *)
Theorem keypad_never_opens_a_parenthesis_after_an_operand : keypad_keeps no_open_after_operand.
Proof.
  apply keypad_keeps_of_keystrokes;
    [reflexivity | exact no_open_after_operand_keystroke].
Qed.

Lemma keypad_never_opens_after_an_operand_witness :
  no_open_after_operand "2+5" /\
  currentExpression (addParenthesis "(" (set_currentExpression "2+5" initial))
  = "2+5*(" /\
  no_open_after_operand
    (currentExpression (addParenthesis "(" (set_currentExpression "2+5" initial))).
Proof.
  split; [reflexivity|]. split; [reflexivity|].
  exact (proj1 (proj2 (proj2 (proj2 (proj2 keypad_never_opens_a_parenthesis_after_an_operand
                         (set_currentExpression "2+5" initial) "7"%char "-"%char
                         eq_refl eq_refl eq_refl))))).
Defined.

(** X5.  The editing keys never give an operand a second decimal point. *)
Theorem keypad_allows_one_point_per_operand : keypad_keeps one_point_per_operand.
Proof.
  apply keypad_keeps_of_keystrokes; [|exact one_point_per_operand_keystroke].
  repeat constructor.
Qed.

Lemma keypad_allows_one_point_per_operand_witness :
  one_point_per_operand "1.5+2.5" /\
  currentExpression (addDecimal (set_currentExpression "1.5+2.5" initial))
  = "1.5+2.5" /\
  one_point_per_operand
    (currentExpression (addDecimal (set_currentExpression "1.5+2.5" initial))).
Proof.
  assert (H : one_point_per_operand "1.5+2.5") by (repeat constructor).
  split; [exact H|]. split; [reflexivity|].
  exact (proj1 (proj2 (proj2 (proj2 keypad_allows_one_point_per_operand
                         (set_currentExpression "1.5+2.5" initial) "7"%char "-"%char
                         eq_refl eq_refl H)))).
Defined.

Lemma never_overclosed_empty : never_overclosed "".
Proof.
  intros t u E. destruct t; [reflexivity | discriminate E].
Qed.

(** X6.  The editing keys never close a parenthesis that is not open: at
    every point of the expression at least as many parentheses were
    opened as closed. *)
Theorem keypad_never_overcloses : keypad_keeps never_overclosed.
Proof.
  apply keypad_keeps_of_keystrokes;
    [exact never_overclosed_empty | exact never_overclosed_keystroke].
Qed.

Lemma keypad_never_overcloses_witness :
  never_overclosed "" /\
  currentExpression (addParenthesis ")" initial) = "" /\
  never_overclosed (currentExpression (addParenthesis ")" initial)).
Proof.
  split; [exact never_overclosed_empty|]. split; [reflexivity|].
  exact (proj1 (proj2 (proj2 (proj2 (proj2 (proj2 keypad_never_overcloses
                         initial "7"%char "-"%char
                         eq_refl eq_refl never_overclosed_empty)))))).
Defined.

(** X7.  An expression entered with the editing keys holds only
    characters that the cleaning of [safeEvaluate] lets through: it is
    its own cleaned form. *)
Theorem keypad_types_only_calculator_characters :
  keypad_keeps only_calculator_characters.
Proof.
  apply keypad_keeps_of_keystrokes;
    [reflexivity | exact only_calculator_characters_keystroke].
Qed.

Lemma keypad_types_only_calculator_characters_witness :
  only_calculator_characters "50" /\
  currentExpression (addOperator "%" (set_currentExpression "50" initial)) = "50%" /\
  only_calculator_characters
    (currentExpression (addOperator "%" (set_currentExpression "50" initial))).
Proof.
  split; [reflexivity|]. split; [reflexivity|].
  exact (proj1 (proj2 (proj2 keypad_types_only_calculator_characters
                         (set_currentExpression "50" initial) "7"%char "%"%char
                         eq_refl eq_refl eq_refl))).
Defined.

(** ** Clear entry *)







(** ** The text that is calculated *)

Lemma closing_run_snoc (n : nat) :
  string_of_list_ascii (List.repeat ")"%char (S n)) =
  snoc (string_of_list_ascii (List.repeat ")"%char n)) ")".
Proof.
  induction n as [|n IH]; [reflexivity|].
  change (string_of_list_ascii (List.repeat ")"%char (S (S n))))
    with (String ")" (string_of_list_ascii (List.repeat ")"%char (S n)))).
  rewrite IH at 1. reflexivity.
Qed.

Lemma closing_run_count (x : ascii) (n : nat) :
  count_char x (string_of_list_ascii (List.repeat ")"%char n)) =
  if Ascii.eqb ")" x then n else 0.
Proof.
  induction n as [|n IH]; [now destruct (Ascii.eqb ")" x)|].
  cbn [List.repeat string_of_list_ascii count_char]. rewrite IH.
  destruct (Ascii.eqb ")" x); lia.
Qed.

Lemma never_overclosed_closing (s : string) (n : nat) :
  never_overclosed s ->
  count_char ")" s + n <= count_char "(" s ->
  never_overclosed (s ++ string_of_list_ascii (List.repeat ")"%char n))%string.
Proof.
  intros H. induction n as [|n IH]; intros Hn.
  - cbn. now rewrite append_empty.
  - rewrite closing_run_snoc, append_snoc.
    apply never_overclosed_snoc; [apply IH; lia|]. intros _.
    rewrite !count_char_append, !closing_run_count.
    change (Ascii.eqb ")" ")") with true. change (Ascii.eqb ")" "(") with false.
    cbv iota. lia.
Qed.

Lemma strip_trailing_operators_parts (s : string) :
  exists operators,
    s = (strip_trailing_operators s ++ operators)%string /\
    all_of_class operator_class operators = true.
Proof.
  induction s as [|c s (operators & IH & Ho)]; [now exists ""|].
  cbn [strip_trailing_operators].
  destruct (all_of_class operator_class (String c s)) eqn:Ea.
  - now exists (String c s).
  - exists operators. split; [cbn; now rewrite <- IH | exact Ho].
Qed.

Lemma operators_hold_no_parenthesis (s : string) :
  all_of_class operator_class s = true ->
  count_char "(" s = 0 /\ count_char ")" s = 0.
Proof.
  induction s as [|c s IH]; [now split|].
  cbn [all_of_class count_char]. intros H.
  apply andb_true_iff in H as [Hc Hs]. destruct (IH Hs) as [-> ->].
  destruct (operator_not_parenthesis c Hc) as (-> & _ & -> & _). now split.
Qed.

(** X9.  When no beginning of the expression closes more parentheses
    than it opens, as the editing keys ensure, the text that
    [calculate()] evaluates has its parentheses balanced: as many closed
    as opened, none closed before it is opened.  With more closed than
    opened in all, [calculate()] fails before it evaluates anything. *)
Theorem calculate_closes_the_open_parentheses (w : World) :
  (never_overclosed (currentExpression w) ->
   exists expr,
     calculate_expr w = Some expr /\
     never_overclosed expr /\
     count_char "(" expr = count_char ")" expr) /\
  (count_char "(" (currentExpression w) < count_char ")" (currentExpression w) ->
   calculate_expr w = None).
Proof.
  unfold calculate_expr. split.
  - intros H.
    pose proof (H (currentExpression w) "" (eq_sym (append_empty _))) as Hc.
    assert ((count_char "(" (currentExpression w)
             <? count_char ")" (currentExpression w))%nat = false) as ->
      by (apply Nat.ltb_ge; exact Hc).
    set (n := count_char "(" (currentExpression w)
              - count_char ")" (currentExpression w)).
    set (closed := (currentExpression w
                    ++ string_of_list_ascii (List.repeat ")"%char n))%string).
    assert (Hclosed : never_overclosed closed).
    { apply never_overclosed_closing; [exact H | unfold n; lia]. }
    destruct (strip_trailing_operators_parts closed) as (operators & Hs & Ho).
    destruct (operators_hold_no_parenthesis operators Ho) as [Hopen Hclose].
    eexists. split; [reflexivity|]. split.
    + intros t u E. apply (Hclosed t (u ++ operators)%string).
      rewrite Hs at 1. rewrite E. apply append_assoc.
    + assert (Hopen' : count_char "(" closed
                       = count_char "(" (strip_trailing_operators closed)).
      { rewrite Hs at 1. rewrite count_char_append. lia. }
      assert (Hclose' : count_char ")" closed
                        = count_char ")" (strip_trailing_operators closed)).
      { rewrite Hs at 1. rewrite count_char_append. lia. }
      rewrite <- Hopen', <- Hclose'. unfold closed.
      rewrite !count_char_append, !closing_run_count.
      change (Ascii.eqb ")" ")") with true. change (Ascii.eqb ")" "(") with false.
      cbv iota. unfold n. lia.
  - intros Hc. apply Nat.ltb_lt in Hc. now rewrite Hc.
Qed.

Lemma never_overclosed_example : never_overclosed "(1+(2*3".
Proof.
  exact (keystrokes_keep never_overclosed never_overclosed_keystroke
           "" "(1+(2*3"
           (keys_more _ _ _ (key_open "" I)
           (keys_more _ _ _ (key_digit "(" "1" eq_refl)
           (keys_more _ _ _ (key_operator "(1" "+" eq_refl eq_refl)
           (keys_more _ _ _ (key_open "(1+" (or_introl eq_refl))
           (keys_more _ _ _ (key_digit "(1+(" "2" eq_refl)
           (keys_more _ _ _ (key_operator "(1+(2" "*" eq_refl eq_refl)
           (keys_more _ _ _ (key_digit "(1+(2*" "3" eq_refl)
           (keys_none _))))))))
           never_overclosed_empty).
Qed.

Lemma calculate_closes_witness :
  never_overclosed "(1+(2*3" /\
  exists expr,
    Some "(1+(2*3))" = Some expr /\
    never_overclosed expr /\
    count_char "(" expr = count_char ")" expr.
Proof.
  split; [exact never_overclosed_example|].
  exact (proj1 (calculate_closes_the_open_parentheses
                  (set_currentExpression "(1+(2*3" initial))
               never_overclosed_example).
Defined.

(** ** Invariants of [voiceControl] *)

Lemma open_streams_from_app (held : list nat) (t u : list Effect) :
  open_streams_from held (t ++ u) =
  open_streams_from (open_streams_from held t) u.
Proof.
  revert held. induction t as [|e t IH]; intros held; [reflexivity|].
  destruct e; cbn [open_streams_from app]; apply IH.
Qed.

Lemma open_streams_quiet (held : list nat) (u : list Effect) :
  forallb leaves_streams u = true -> open_streams_from held u = held.
Proof.
  induction u as [|e u IH]; [reflexivity|]. cbn [forallb]. intros H.
  apply andb_true_iff in H as [He Hu].
  destruct e; try discriminate He; cbn [open_streams_from]; exact (IH Hu).
Qed.

(** A call that leaves [voiceControl] alone and asks nothing about
    streams keeps the invariant. *)
Lemma streams_in_hand_quiet (w w' : World) (u : list Effect) :
  voiceControl w' = voiceControl w ->
  trace w' = trace w ++ u ->
  forallb leaves_streams u = true ->
  streams_in_hand w -> streams_in_hand w'.
Proof.
  unfold streams_in_hand, held_stream, open_streams.
  intros -> -> Hu [Hn Hs]. split; [exact Hn|].
  rewrite open_streams_from_app, Hs. now apply open_streams_quiet.
Qed.

(** Case analysis on the stream and the timer of a world that keeps the
    invariant. *)
Ltac streams_by_cases w :=
  unfold streams_in_hand, held_stream, open_streams;
  destruct w as [? ? ? ? ? [? [?|] [?|] ?] ? ? ?]; cbn;
  let Hn := fresh "Hn" in
  let Hs := fresh "Hs" in
  intros [Hn Hs];
  (split;
   [first [exact Hn | lia]
   |rewrite ?open_streams_from_app, ?Hs; cbn;
    repeat match goal with
      | |- context [Nat.eq_dec ?a ?a] =>
          destruct (Nat.eq_dec a a); [|congruence]
      end;
    reflexivity]).

Lemma streams_in_hand_stop (silent : bool) (w : World) :
  streams_in_hand w -> streams_in_hand (stop silent w).
Proof. streams_by_cases w. Qed.

Lemma streams_in_hand_open (w : World) :
  streams_in_hand w -> streams_in_hand (_openEventStream w).
Proof. streams_by_cases w. Qed.

Lemma streams_in_hand_same (w w' : World) :
  voiceControl w' = voiceControl w -> trace w' = trace w ->
  streams_in_hand w -> streams_in_hand w'.
Proof.
  intros Hc Ht. apply (streams_in_hand_quiet w w' []); [exact Hc | | reflexivity].
  now rewrite app_nil_r.
Qed.

Lemma streams_in_hand_emit (e : Effect) (w : World) :
  leaves_streams e = true -> streams_in_hand w -> streams_in_hand (emit e w).
Proof.
  intros He. apply (streams_in_hand_quiet w _ [e]); [reflexivity | reflexivity|].
  cbn. now rewrite He.
Qed.

Lemma streams_in_hand_schedule (w : World) :
  streams_in_hand w -> streams_in_hand (_scheduleReconnect w).
Proof.
  unfold streams_in_hand, held_stream, open_streams.
  destruct w as [? ? ? ? ? [? [?|] [?|] count] ? ? ?]; cbn; intros [Hn Hs];
    try (split; [exact Hn | exact Hs]);
    (destruct count as [|[|[|[|[|count]]]]]; [| | | | |lia]); cbn;
    (split;
     [lia
     |rewrite ?open_streams_from_app, ?Hs; cbn;
      repeat match goal with
        | |- context [Nat.eq_dec ?a ?a] =>
            destruct (Nat.eq_dec a a); [|congruence]
        end;
      reflexivity]).
Qed.

Lemma streams_in_hand_stop_resumed (silent : bool) (r : Response) (w : World) :
  streams_in_hand w -> streams_in_hand (stop_resumed silent r w).
Proof. destruct silent, r; streams_by_cases w. Qed.

Lemma streams_in_hand_start (w : World) :
  streams_in_hand w -> streams_in_hand (start w).
Proof.
  unfold start. destruct (VoiceControl.active (voiceControl w)); streams_by_cases w.
Qed.

Lemma streams_in_hand_start_resumed (r : Response) (w : World) :
  streams_in_hand w -> streams_in_hand (start_resumed r w).
Proof. destruct r as [|[]]; streams_by_cases w. Qed.

Lemma streams_in_hand_reconnect_fired (w : World) :
  streams_in_hand w -> streams_in_hand (reconnect_fired w).
Proof. streams_by_cases w. Qed.

Lemma streams_in_hand_reconnect_resumed (r : Response) (w : World) :
  streams_in_hand w -> streams_in_hand (reconnect_resumed r w).
Proof.
  intros H. destruct r as [|[]]; cbn [reconnect_resumed].
  - apply streams_in_hand_schedule. now apply streams_in_hand_emit.
  - apply (streams_in_hand_same (_openEventStream w)); [reflexivity..|].
    now apply streams_in_hand_open.
  - apply streams_in_hand_schedule. now apply streams_in_hand_emit.
Qed.

Lemma streams_in_hand_onerror (w : World) :
  streams_in_hand w -> streams_in_hand (onerror w).
Proof.
  intros H. unfold onerror.
  set (w1 := emit (Console "warn" "Voice stream encountered an error") w).
  assert (H1 : streams_in_hand w1) by (now apply streams_in_hand_emit).
  set (w2 := match VoiceControl.eventSource (voiceControl w1) with
             | Some source => set_eventSource None (emit (Close source) w1)
             | None => w1
             end).
  assert (H2 : streams_in_hand w2).
  { clearbody w1. unfold w2. revert H1. clear. streams_by_cases w1. }
  clearbody w2. clear w1 H1 H.
  destruct (VoiceControl.active (voiceControl w2)); cbn [negb].
  - apply streams_in_hand_schedule.
    now apply (streams_in_hand_same w2); [reflexivity..|].
  - now apply (streams_in_hand_same w2); [reflexivity..|].
Qed.

Lemma streams_in_hand_inject
  (expression : option string) (confidence : float) (now : Z) (w : World) :
  streams_in_hand w ->
  streams_in_hand (injectVoiceExpression expression confidence now w).
Proof.
  intros H.
  destruct (injectVoiceExpression_cases expression confidence now w)
    as [-> | (received & _ & _ & _ & _ & _ & _ & _ & Ht & Hc & _)]; [exact H|].
  now apply (streams_in_hand_quiet w _ _ Hc Ht).
Qed.

Lemma streams_in_hand_calculate (w : World) :
  streams_in_hand w -> streams_in_hand (calculate w).
Proof.
  intros H. unfold calculate.
  destruct (Text.truthy (currentExpression w)); cbn [negb]; [|exact H].
  now apply streams_in_hand_emit.
Qed.

Lemma streams_in_hand_result (p : Payload.t) (now : Z) (w : World) :
  streams_in_hand w -> streams_in_hand (handleVoiceResult p now w).
Proof.
  intros H. unfold handleVoiceResult.
  destruct (tag_is (Payload.action p) "append_expression");
    [now apply streams_in_hand_inject|].
  destruct (tag_is (Payload.action p) "calculate").
  { apply streams_in_hand_calculate.
    destruct (present (Payload.expression p)); [|exact H].
    now apply streams_in_hand_inject. }
  destruct (tag_is (Payload.action p) "clear").
  { assert (Hclear : streams_in_hand (clearAll w)).
    { now apply (streams_in_hand_quiet w _ [UpdateDisplay ""]). }
    now destruct (Payload.expression p). }
  destruct (tag_is (Payload.action p) "backspace").
  { unfold backspace. destruct (Text.truthy (currentExpression w)); cbn [negb];
      [|exact H].
    now apply (streams_in_hand_quiet w _
                 [UpdateDisplay (Text.slice_0_minus1 (currentExpression w))]). }
  destruct (tag_is (Payload.action p) "stop"); [|exact H].
  now apply streams_in_hand_stop.
Qed.

Lemma streams_in_hand_payload (payload : Json) (now : Z) (w : World) :
  streams_in_hand w -> streams_in_hand (handleVoicePayload payload now w).
Proof.
  intros H. unfold handleVoicePayload.
  destruct (falsy payload || negb (String.eqb (typeof payload) "object"));
    [exact H|].
  destruct (tag_is (Payload.type (properties payload)) "status").
  { now apply (streams_in_hand_same w); [reflexivity..|]. }
  destruct (tag_is (Payload.type (properties payload)) "result"); [|exact H].
  apply streams_in_hand_result.
  now apply (streams_in_hand_same w); [reflexivity..|].
Qed.

Lemma streams_in_hand_step (e : Event) (w w' : World) :
  step e w = Some w' -> streams_in_hand w -> streams_in_hand w'.
Proof.
  intros Hstep H. destruct e; cbn [step] in Hstep.
  - injection Hstep as <-. now apply streams_in_hand_start.
  - injection Hstep as <-. now apply streams_in_hand_stop.
  - injection Hstep as <-. unfold toggle.
    destruct (VoiceControl.active (voiceControl w));
      [now apply streams_in_hand_stop | now apply streams_in_hand_start].
  - destruct (take_pending k (pending w)) as [rest|]; [|discriminate].
    injection Hstep as <-.
    assert (Hrest : streams_in_hand (set_pending rest w))
      by (now apply (streams_in_hand_same w); [reflexivity..|]).
    destruct k; cbn [resume].
    + now apply streams_in_hand_start_resumed.
    + now apply streams_in_hand_stop_resumed.
    + now apply streams_in_hand_reconnect_resumed.
  - destruct (is_some _); [|discriminate]. injection Hstep as <-.
    destruct data; cbn [onmessage].
    + exact H.
    + now apply streams_in_hand_emit.
    + now apply streams_in_hand_payload.
  - destruct (is_some _); [|discriminate]. injection Hstep as <-.
    unfold onping. destruct (VoiceControl.active (voiceControl w)); [|exact H].
    now apply (streams_in_hand_same w); [reflexivity..|].
  - destruct (is_some _); [|discriminate]. injection Hstep as <-.
    now apply streams_in_hand_onerror.
  - destruct (is_some _); [|discriminate]. injection Hstep as <-.
    now apply streams_in_hand_reconnect_fired.
Qed.

Lemma streams_in_hand_run (events : list Event) (w w' : World) :
  run events w = Some w' -> streams_in_hand w -> streams_in_hand w'.
Proof.
  revert w. induction events as [|e events IH]; intros w Hrun H.
  - injection Hrun as <-. exact H.
  - cbn [run] in Hrun. destruct (step e w) as [w1|] eqn:Hstep; [|discriminate].
    exact (IH w1 Hrun (streams_in_hand_step e w w1 Hstep H)).
Qed.

Lemma streams_in_hand_initial : streams_in_hand initial.
Proof. split; [cbn; lia | reflexivity]. Qed.

(** X10.  In every world the page can reach, [reconnectAttempts] is at
    most 4. *)
Theorem reconnectAttempts_never_exceeds_the_cap (w : World) :
  reachable w -> VoiceControl.reconnectAttempts (voiceControl w) <= 4.
Proof.
  intros (events & Hrun).
  exact (proj1 (streams_in_hand_run events initial w Hrun streams_in_hand_initial)).
Qed.

(** X11.  In every world the page can reach, the streams that were
    opened and not closed are exactly the one [voiceControl.eventSource]
    refers to: never two open streams, never an open stream that the
    object has lost. *)
Theorem open_streams_are_the_held_one (w : World) :
  reachable w -> open_streams (trace w) = held_stream w.
Proof.
  intros (events & Hrun).
  exact (proj2 (streams_in_hand_run events initial w Hrun streams_in_hand_initial)).
Qed.
Lemma reconnectAttempts_witness :
  exists w,
    run [CallStart; Settled AfterStartFetch (Status true); StreamError;
         TimerFired; Settled AfterRestartFetch Rejected] initial = Some w /\
    VoiceControl.reconnectAttempts (voiceControl w) <= 4.
Proof.
  destruct (run [CallStart; Settled AfterStartFetch (Status true); StreamError;
                 TimerFired; Settled AfterRestartFetch Rejected] initial)
    as [w|] eqn:Hrun; [|vm_compute in Hrun; discriminate Hrun].
  exists w. split; [reflexivity|].
  apply reconnectAttempts_never_exceeds_the_cap.
  exists [CallStart; Settled AfterStartFetch (Status true); StreamError;
          TimerFired; Settled AfterRestartFetch Rejected].
  exact Hrun.
Defined.

Lemma open_streams_witness :
  exists w,
    run [CallStart; Settled AfterStartFetch (Status true); StreamError;
         TimerFired; Settled AfterRestartFetch (Status true)] initial = Some w /\
    open_streams (trace w) = held_stream w /\
    held_stream w = [2].
Proof.
  destruct (run [CallStart; Settled AfterStartFetch (Status true); StreamError;
                 TimerFired; Settled AfterRestartFetch (Status true)] initial)
    as [w|] eqn:Hrun; [|vm_compute in Hrun; discriminate Hrun].
  exists w. split; [reflexivity|]. split.
  - apply open_streams_are_the_held_one.
    exists [CallStart; Settled AfterStartFetch (Status true); StreamError;
            TimerFired; Settled AfterRestartFetch (Status true)].
    exact Hrun.
  - vm_compute in Hrun. injection Hrun as <-. reflexivity.
Defined.

(** ** Start, toggle and stop, end to end *)

(** X12.  A [start()] whose fetch fails is reported and not retried: the
    consumer stays inactive with the status [error] and the message
    [Voice service unavailable], no stream is opened and no timer set,
    and no later run of events fetches [/voice/start] unless it calls
    [start()], directly or through [toggle()]. *)
Theorem failed_start_is_not_retried (w : World) (r : Response) :
  at_rest w ->
  succeeded r = false ->
  exists w',
    run [CallStart; Settled AfterStartFetch r] w = Some w' /\
    at_rest w' /\
    voiceUI w' =
      VoiceUI.make "error" "Voice service unavailable" "Voice service unavailable" /\
    trace w' =
      trace w ++ [Fetch "/voice/start"; Console "error" "Voice service start error"] /\
    (forall events w'',
        existsb calls_start events = false ->
        run events w' = Some w'' ->
        fetches "/voice/start" (trace w'') = fetches "/voice/start" (trace w')).
Proof.
  intros (Hactive & Hstream & Htimer & Hpending) Hr.
  destruct w as [cur reset lastE lastT ui [act source timer count] pend next tr];
    cbn in Hactive, Hstream, Htimer, Hpending. subst act source timer pend.
  destruct (failed_response r Hr) as [-> | ->];
    (eexists; split; [reflexivity|];
     split; [repeat split|];
     split; [reflexivity|];
     split; [cbn; now rewrite <- app_assoc|];
     intros events w'' Hno Hrun;
     eapply given_up_run; [|exact Hno|exact Hrun]; repeat split).
Qed.

Lemma failed_start_witness :
  at_rest initial /\
  exists w',
    run [CallStart; Settled AfterStartFetch Rejected] initial = Some w' /\
    VoiceUI.state (voiceUI w') = "error".
Proof.
  assert (H : at_rest initial) by (repeat split).
  split; [exact H|].
  destruct (failed_start_is_not_retried initial Rejected H eq_refl)
    as (w' & Hrun & _ & Hui & _).
  exists w'. split; [exact Hrun|]. now rewrite Hui.
Defined.

(** X13.  [toggle()] twice on a consumer at rest, the start succeeding
    in between, brings it back to rest: one stream was opened and that
    same stream closed, the status says [Mic off], the counter is zero
    and the host variables are untouched. *)
Theorem toggle_on_then_off_returns_to_rest (w : World) (r : Response) :
  at_rest w ->
  exists w',
    run [CallToggle; Settled AfterStartFetch (Status true);
         CallToggle; Settled (AfterStopFetch false) r] w = Some w' /\
    at_rest w' /\
    voiceControl w' = VoiceControl.make false None None 0 /\
    voiceUI w' = VoiceUI.make "idle" "Mic off" "Mic off" /\
    currentExpression w' = currentExpression w /\
    shouldResetOnNextInput w' = shouldResetOnNextInput w /\
    trace w' =
      trace w ++
      [Fetch "/voice/start"; NewEventSource (fresh w); Close (fresh w);
       Fetch "/voice/stop"] ++
      match r with
      | Rejected => [Console "warn" "Voice service stop warning"]
      | Status _ => []
      end.
Proof.
  intros (Hactive & Hstream & Htimer & Hpending).
  destruct w as [cur reset lastE lastT ui [act source timer count] pend next tr];
    cbn in Hactive, Hstream, Htimer, Hpending. subst act source timer pend.
  exists (mkWorld cur reset lastE lastT (VoiceUI.make "idle" "Mic off" "Mic off")
            (VoiceControl.make false None None 0) [] (S next)
            match r with
            | Rejected =>
                ((((tr ++ [Fetch "/voice/start"]) ++ [NewEventSource next]) ++
                  [Close next]) ++ [Fetch "/voice/stop"]) ++
                [Console "warn" "Voice service stop warning"]
            | Status _ =>
                (((tr ++ [Fetch "/voice/start"]) ++ [NewEventSource next]) ++
                 [Close next]) ++ [Fetch "/voice/stop"]
            end).
  split; [destruct r as [|ok]; lazy; reflexivity|].
  split; [repeat split|].
  do 4 (split; [reflexivity|]).
  destruct r as [|ok]; cbn [trace fresh]; rewrite <- !app_assoc; reflexivity.
Qed.

Lemma toggle_witness :
  at_rest initial /\
  exists w',
    run [CallToggle; Settled AfterStartFetch (Status true);
         CallToggle; Settled (AfterStopFetch false) (Status true)] initial = Some w' /\
    trace w' =
      [Fetch "/voice/start"; NewEventSource 0; Close 0; Fetch "/voice/stop"].
Proof.
  assert (H : at_rest initial) by (repeat split).
  split; [exact H|].
  destruct (toggle_on_then_off_returns_to_rest initial (Status true) H)
    as (w' & Hrun & _ & _ & _ & _ & _ & Htrace).
  exists w'. split; [exact Hrun | exact Htrace].
Defined.

(** X14.  [stop()] does not cancel a reconnect whose fetch is in flight.
    When that fetch succeeds after the call of [stop()], before or after
    the fetch of [/voice/stop] settles, the callback opens a new stream
    that nothing closes: the consumer ends inactive, holding one more
    open stream, and if the stop settled first the status says
    [listening]. *)
Theorem stop_does_not_cancel_a_restart_in_flight
  (w : World) (silent : bool) (r : Response) :
  restart_in_flight w ->
  exists w1 w2,
    run [CallStop silent; Settled (AfterStopFetch silent) r;
         Settled AfterRestartFetch (Status true)] w = Some w1 /\
    run [CallStop silent; Settled AfterRestartFetch (Status true);
         Settled (AfterStopFetch silent) r] w = Some w2 /\
    voiceControl w1 = VoiceControl.make false (Some (fresh w)) None 0 /\
    voiceControl w2 = VoiceControl.make false (Some (fresh w)) None 0 /\
    VoiceUI.state (voiceUI w1) = "listening" /\
    open_streams (trace w1) = open_streams (trace w) ++ [fresh w] /\
    open_streams (trace w2) = open_streams (trace w) ++ [fresh w].
Proof.
  intros (Hactive & Hstream & Htimer & Hpending).
  destruct w as [cur reset lastE lastT ui [act source timer count] pend next tr];
    cbn in Hactive, Hstream, Htimer, Hpending. subst act source timer pend.
  destruct silent, r as [|ok];
    (eexists; eexists; split; [lazy; reflexivity|];
     split; [lazy; reflexivity|];
     do 3 (split; [reflexivity|]);
     split; cbn [trace fresh]; unfold open_streams;
     rewrite !open_streams_from_app; reflexivity).
Qed.

Lemma stop_does_not_cancel_witness :
  exists w w1,
    restart_in_flight w /\
    run [CallStop false; Settled (AfterStopFetch false) (Status true);
         Settled AfterRestartFetch (Status true)] w = Some w1 /\
    VoiceControl.active (voiceControl w1) = false /\
    is_some (VoiceControl.eventSource (voiceControl w1)) = true.
Proof.
  exists (reconnect_fired
            (onerror (start_resumed (Status true) (set_pending [] (start initial))))).
  assert (H : restart_in_flight
                (reconnect_fired
                   (onerror
                      (start_resumed (Status true) (set_pending [] (start initial))))))
    by (repeat split).
  destruct (stop_does_not_cancel_a_restart_in_flight _ false (Status true) H)
    as (w1 & w2 & Hrun & _ & Hc & _).
  exists w1. split; [exact H|]. split; [exact Hrun|].
  rewrite Hc. split; reflexivity.
Defined.

(** ** A stop asked by voice *)

(** X15.  A result event [stop] received on the held stream ends the
    session: the stream is closed, [/voice/stop] is fetched and, once
    that fetch settles, the consumer is at rest with the status
    [Mic off].  The expression the event may carry is not injected: the
    host variables are untouched and nothing is drawn. *)
Theorem stop_event_ends_the_session
  (p : Payload.t) (now : Z) (r : Response) (id : nat) (w : World) :
  Payload.type p = Some "result" ->
  Payload.action p = Some "stop" ->
  VoiceControl.eventSource (voiceControl w) = Some id ->
  VoiceControl.reconnectTimer (voiceControl w) = None ->
  pending w = [] ->
  exists w',
    run [StreamMessage (Document (JObject p)) now;
         Settled (AfterStopFetch false) r] w = Some w' /\
    at_rest w' /\
    voiceControl w' = VoiceControl.make false None None 0 /\
    voiceUI w' = VoiceUI.make "idle" "Mic off" "Mic off" /\
    currentExpression w' = currentExpression w /\
    shouldResetOnNextInput w' = shouldResetOnNextInput w /\
    lastVoiceExpression w' = lastVoiceExpression w /\
    trace w' =
      trace w ++ [Close id; Fetch "/voice/stop"] ++
      match r with
      | Rejected => [Console "warn" "Voice service stop warning"]
      | Status _ => []
      end.
Proof.
  intros Htype Haction Hstream Htimer Hpending.
  destruct w as [cur reset lastE lastT ui [act source timer count] pend next tr];
    cbn in Hstream, Htimer, Hpending. subst source timer pend.
  destruct p as [type state message level action expression confidence];
    cbn in Htype, Haction. subst type action.
  exists (mkWorld cur reset lastE lastT (VoiceUI.make "idle" "Mic off" "Mic off")
            (VoiceControl.make false None None 0) [] next
            match r with
            | Rejected =>
                ((tr ++ [Close id]) ++ [Fetch "/voice/stop"]) ++
                [Console "warn" "Voice service stop warning"]
            | Status _ => (tr ++ [Close id]) ++ [Fetch "/voice/stop"]
            end).
  split; [destruct r as [|ok]; lazy; reflexivity|].
  split; [repeat split|].
  do 5 (split; [reflexivity|]).
  destruct r as [|ok]; cbn [trace]; rewrite <- !app_assoc; reflexivity.
Qed.

Lemma stop_event_witness :
  exists w w',
    VoiceControl.eventSource (voiceControl w) = Some 0 /\
    run [StreamMessage
           (Document (JObject (Payload.make (Some "result") None None None
                                 (Some "stop") (Some "1+2") None))) 0;
         Settled (AfterStopFetch false) (Status true)] w = Some w' /\
    currentExpression w' = "" /\
    trace w' =
      [Fetch "/voice/start"; NewEventSource 0; Close 0; Fetch "/voice/stop"].
Proof.
  exists (start_resumed (Status true) (set_pending [] (start initial))).
  destruct (stop_event_ends_the_session
              (Payload.make (Some "result") None None None
                 (Some "stop") (Some "1+2") None) 0 (Status true) 0
              (start_resumed (Status true) (set_pending [] (start initial)))
              eq_refl eq_refl eq_refl eq_refl eq_refl)
    as (w' & Hrun & _ & _ & _ & Hcur & _ & _ & Htrace).
  exists w'. split; [reflexivity|]. split; [exact Hrun|].
  split; [exact Hcur | exact Htrace].
Defined.

(** ** Status events *)

Lemma deriveVoiceState_derived (rawState : string) :
  derived_state (deriveVoiceState rawState).
Proof.
  unfold derived_state, deriveVoiceState.
  destruct (String.eqb rawState "calibrating" || String.eqb rawState "listening");
    [now left|].
  destruct (String.eqb rawState "error"); [right; now left | right; now right].
Qed.

Lemma deriveVoiceState_listening (rawState : string) :
  deriveVoiceState rawState = "listening" <->
  rawState = "calibrating" \/ rawState = "listening".
Proof.
  unfold deriveVoiceState.
  destruct (String.eqb rawState "calibrating") eqn:Ec.
  - apply String.eqb_eq in Ec. cbn [orb]. split; [now left | reflexivity].
  - destruct (String.eqb rawState "listening") eqn:El; cbn [orb].
    + apply String.eqb_eq in El. split; [now right | reflexivity].
    + apply String.eqb_neq in Ec, El.
      destruct (String.eqb rawState "error");
        (split; [discriminate | intros [E | E]; contradiction]).
Qed.

(** X16.  A status event sets the status line and nothing else.  The
    state it leaves is [listening], [error] or [idle]: [listening] exactly
    when the event says [calibrating] or [listening].  At the level
    [debug] the text on the page stays as it was; at any other level it
    is the message of the event, or [Listening…] when the event has
    none. *)
Theorem status_event_sets_only_the_status_line
  (p : Payload.t) (now : Z) (w : World) :
  Payload.type p = Some "status" ->
  exists ui,
    handleVoicePayload (JObject p) now w = set_voiceUI ui w /\
    derived_state (VoiceUI.state ui) /\
    (VoiceUI.state ui = "listening" <->
     Payload.state p = Some "calibrating" \/ Payload.state p = Some "listening") /\
    VoiceUI.message ui = or_else (Payload.message p) "Listening…" /\
    VoiceUI.shown ui =
      match Payload.level p with
      | Some "debug" => VoiceUI.shown (voiceUI w)
      | _ => VoiceUI.message ui
      end.
Proof.
  intros Htype.
  exists (VoiceUI.set (or_else (Payload.message p) "Listening…")
            (deriveVoiceState (or_else (Payload.state p) "idle"))
            (or_else (Payload.level p) "info") (voiceUI w)).
  split.
  { unfold handleVoicePayload. cbn [falsy typeof properties orb negb String.eqb].
    rewrite Htype. reflexivity. }
  split; [apply deriveVoiceState_derived|].
  split.
  { cbn [VoiceUI.set VoiceUI.state]. rewrite deriveVoiceState_listening.
    destruct (Payload.state p) as [[|c s]|]; cbn [or_else Text.truthy].
    - split; [intros [E | E]; discriminate E | intros [E | E]; discriminate E].
    - split; (intros [E | E]; [left | right]; congruence).
    - split; [intros [E | E]; discriminate E | intros [E | E]; discriminate E]. }
  split; [reflexivity|].
  cbn [VoiceUI.set VoiceUI.shown VoiceUI.message].
  destruct (Payload.level p) as [level|]; [|reflexivity].
  cbn [or_else].
  destruct (String.eqb level "debug") eqn:Ed.
  - apply String.eqb_eq in Ed. subst level. reflexivity.
  - destruct level as [|c level]; [reflexivity|].
    cbn [Text.truthy]. rewrite Ed. cbn [negb].
    apply String.eqb_neq in Ed.
    repeat match goal with
           | |- context [match ?x with _ => _ end] =>
               destruct x; try reflexivity
           end; contradiction Ed; reflexivity.
Qed.

Lemma status_event_witness :
  exists ui,
    handleVoicePayload
      (JObject (Payload.make (Some "status") (Some "calibrating") (Some "Hold on")
                  (Some "debug") None None None)) 0 initial
    = set_voiceUI ui initial /\
    VoiceUI.state ui = "listening" /\
    VoiceUI.message ui = "Hold on" /\
    VoiceUI.shown ui = "Mic off".
Proof.
  destruct (status_event_sets_only_the_status_line
              (Payload.make (Some "status") (Some "calibrating") (Some "Hold on")
                 (Some "debug") None None None) 0 initial eq_refl)
    as (ui & Hrun & _ & Hstate & Hmessage & Hshown).
  exists ui. split; [exact Hrun|].
  split; [apply Hstate; now left|]. split; [exact Hmessage | exact Hshown].
Defined.

(** ** From the voice to the engine *)

Lemma delete_all_leaves_the_others (class : ascii -> bool) (s : string) :
  all_of_class (fun c => negb (class c)) (Text.delete_all class s) = true.
Proof.
  induction s as [|c s IH]; [reflexivity|].
  cbn [Text.delete_all]. destruct (class c) eqn:Ec; [exact IH|].
  cbn [all_of_class]. now rewrite Ec, IH.
Qed.

Lemma all_of_class_weaken (class class' : ascii -> bool) (s : string) :
  (forall c, class c = true -> class' c = true) ->
  all_of_class class s = true -> all_of_class class' s = true.
Proof.
  intros Hsub. induction s as [|c s IH]; [reflexivity|].
  cbn [all_of_class]. intros H. apply andb_true_iff in H as [Hc Hs].
  now rewrite (Hsub c Hc), (IH Hs).
Qed.

Lemma all_of_class_repeat (class : ascii -> bool) (c : ascii) (n : nat) :
  class c = true ->
  all_of_class class (string_of_list_ascii (List.repeat c n)) = true.
Proof.
  intros Hc. induction n as [|n IH]; [reflexivity|].
  cbn [List.repeat string_of_list_ascii all_of_class]. now rewrite Hc, IH.
Qed.

(** A character that [injectVoiceExpression] keeps is one that
    [safeEvaluate] keeps, and it is not the percent sign. *)
Lemma voice_class_is_clean (c : ascii) :
  negb (outside_voice_class c) = true ->
  negb (Evaluator.outside_clean_class c) = true /\
  negb (Ascii.eqb "%" c) = true.
Proof.
  unfold outside_voice_class, Evaluator.outside_clean_class.
  rewrite !negb_involutive. intros H. split.
  - apply orb_true_iff in H as [H | H]; [now rewrite H|].
    apply orb_true_iff. right. cbn [Text.one_of] in H |- *.
    repeat (apply orb_true_iff in H as [H | H]; [rewrite H; now rewrite ?orb_true_r|]).
    discriminate H.
  - destruct (Ascii.eqb "%" c) eqn:E; [|reflexivity].
    apply Ascii.eqb_eq in E. subst c. discriminate H.
Qed.

Lemma includes_no_percent (s : string) :
  all_of_class (fun c => negb (Ascii.eqb "%" c)) s = true ->
  Text.includes s "%" = false.
Proof.
  induction s as [|c s IH]; [reflexivity|].
  cbn [all_of_class Text.includes Text.starts_with]. intros H.
  apply andb_true_iff in H as [Hc Hs]. apply negb_true_iff in Hc.
  rewrite Hc, (IH Hs). reflexivity.
Qed.

(** X17.  An expression that came in by voice is evaluated as it is
    shown: in the text that [calculate()] hands to [safeEvaluate], the
    sanitised expression with its parentheses closed and without the
    operators at its end, [safeEvaluate] deletes no character and
    rewrites no percentage, so that its guard and the engine read that
    very text. *)
Theorem voice_expression_is_evaluated_as_shown
  (received expr : string) (w : World) :
  currentExpression w = sanitize received ->
  calculate_expr w = Some expr ->
  Evaluator.guarded_text expr = expr.
Proof.
  intros Hcur. unfold calculate_expr. rewrite Hcur.
  destruct (_ <? _)%nat; [discriminate|]. intros [= <-].
  set (closed := (sanitize received ++ _)%string).
  assert (Hclosed : all_of_class (fun c => negb (outside_voice_class c)) closed = true).
  { unfold closed. rewrite all_of_class_append.
    unfold sanitize at 1. rewrite delete_all_leaves_the_others.
    now rewrite all_of_class_repeat. }
  destruct (strip_trailing_operators_parts closed) as (operators & Hparts & _).
  rewrite Hparts, all_of_class_append in Hclosed.
  apply andb_true_iff in Hclosed as [Hexpr _].
  unfold Evaluator.guarded_text.
  assert (Hclean : Text.delete_all Evaluator.outside_clean_class
                     (strip_trailing_operators closed)
                   = strip_trailing_operators closed).
  { apply delete_all_fixed.
    apply (all_of_class_weaken _ _ _ (fun c H => proj1 (voice_class_is_clean c H))).
    exact Hexpr. }
  rewrite Hclean. apply rewrite_percent_without_percent, includes_no_percent.
  apply (all_of_class_weaken _ _ _ (fun c H => proj2 (voice_class_is_clean c H))).
  exact Hexpr.
Qed.

Lemma voice_expression_witness :
  currentExpression (set_currentExpression "(1+2" initial) = sanitize "say (1 + 2" /\
  calculate_expr (set_currentExpression "(1+2" initial) = Some "(1+2)" /\
  Evaluator.guarded_text "(1+2)" = "(1+2)".
Proof.
  split; [reflexivity|]. split; [reflexivity|].
  exact (voice_expression_is_evaluated_as_shown "say (1 + 2" "(1+2)"
           (set_currentExpression "(1+2" initial) eq_refl eq_refl).
Defined.
